(** * Contact form handler: validation pipeline, rate limiter, dispatch

    A shallow embedding of the HTTP-triggered [contactForm] function and of
    its helpers ([checkRateLimit], [validateRecaptcha], [isGibberish],
    [containsUrls], [isValidEmail], [isValidPhone], [isValidZipCode]),
    followed by the properties of the specification that concern them.

    Conventions of the embedding.
    - A JavaScript string is the list of its UTF-16 code units ([jstring]).
    - [Date.now()], the answer of the captcha endpoint, the behaviour of the
      email client and the rendering of the submission date are inputs,
      gathered in [Environment].
    - The process-wide [rateLimitStore] is threaded explicitly; the outbound
      calls (captcha verification, email dispatch) are collected in order in
      a list of [call]s.
    - [context.log] and [context.error] have no influence on the response,
      the store or the outbound calls; they are left out. *)

From Stdlib Require Import ZArith NArith QArith List String Ascii Bool Lia.
From Stdlib Require Import DecimalString.
From stdpp Require Import base option list gmap.

Open Scope Z_scope.

(* ===================================================================== *)
(** ** JavaScript strings *)
(* ===================================================================== *)

Module JS.

(** One UTF-16 code unit, and a string. *)
Abbreviation char := N (only parsing).
Abbreviation jstring := (list N) (only parsing).

(** A literal of the program text (all of them are ASCII). *)
Definition lit (s : string) : jstring :=
  List.map N_of_ascii (list_ascii_of_string s).

(** [WhiteSpace] and [LineTerminator] of ECMAScript: what [\s] matches and
    what [String.prototype.trim] strips. *)
Definition isWhiteSpace (c : char) : bool :=
  ((9 <=? c) && (c <=? 13) || (c =? 32) || (c =? 160) || (c =? 5760)
   || (8192 <=? c) && (c <=? 8202) || (c =? 8232) || (c =? 8233)
   || (c =? 8239) || (c =? 8287) || (c =? 12288) || (c =? 65279))%N.

(** [LineTerminator]: the code units the regex atom [.] refuses. *)
Definition isLineTerminator (c : char) : bool :=
  ((c =? 10) || (c =? 13) || (c =? 8232) || (c =? 8233))%N.

(** [\d] is [0-9]. *)
Definition isDigit (c : char) : bool := ((48 <=? c) && (c <=? 57))%N.

Definition isUpperAscii (c : char) : bool := ((65 <=? c) && (c <=? 90))%N.
Definition isLowerAscii (c : char) : bool := ((97 <=? c) && (c <=? 122))%N.

Fixpoint dropWhile {A} (p : A -> bool) (l : list A) : list A :=
  match l with
  | [] => []
  | x :: l' => if p x then dropWhile p l' else l
  end.

Fixpoint takeWhile {A} (p : A -> bool) (l : list A) : list A :=
  match l with
  | [] => []
  | x :: l' => if p x then x :: takeWhile p l' else []
  end.

(** [s.trim()] *)
Definition trim (s : jstring) : jstring :=
  List.rev (dropWhile isWhiteSpace (List.rev (dropWhile isWhiteSpace s))).

(** [s === t] on strings. *)
Definition strictEq (s t : jstring) : bool := bool_decide (s = t).

(** [s.toLowerCase()].  The Basic Latin letters are mapped; so is the Kelvin
    sign U+212A, the one code point outside Basic Latin whose lower case is a
    Basic Latin string.  Every other code point has a lower case that
    contains a code unit above 127; the handler only compares the result
    with the Basic Latin entries of [BLOCKED_EMAILS], and for that comparison
    leaving those code units in place is exact. *)
Definition toLowerChar (c : char) : char :=
  if isUpperAscii c then (c + 32)%N
  else if (c =? 8490)%N then 107%N
  else c.

Definition toLowerCase (s : jstring) : jstring := List.map toLowerChar s.

(** [Array.prototype.includes] on an array of strings. *)
Definition includes (l : list jstring) (s : jstring) : bool :=
  existsb (strictEq s) l.

(** Truthiness of a value that is a string or [undefined]. *)
Definition truthy (v : option jstring) : bool :=
  match v with
  | Some (_ :: _) => true
  | _ => false
  end.

(** [String(v)] for a value that is a string or [undefined]. *)
Definition String_ (v : option jstring) : jstring :=
  match v with
  | Some s => s
  | None => lit "undefined"
  end.

(** Decimal rendering of a non-negative integer inside a template literal. *)
Definition ofNat (n : nat) : jstring :=
  lit (NilEmpty.string_of_uint (Nat.to_uint n)).

(** *** Regular expressions

    The fragment the program uses, without back-references: character
    classes, concatenation, alternation and iteration.  [test] asks whether
    some substring belongs to the language, which is what the backtracking
    matcher of the engine decides; Brzozowski derivatives compute it. *)

Inductive regex :=
| Fail
| Eps
| Class (p : char -> bool)
| Seq (r1 r2 : regex)
| Alt (r1 r2 : regex)
| Star (r : regex).

Definition Plus (r : regex) : regex := Seq r (Star r).
Definition Opt (r : regex) : regex := Alt r Eps.

Fixpoint Times (n : nat) (r : regex) : regex :=
  match n with
  | O => Eps
  | S n' => Seq r (Times n' r)
  end.

(** A literal character; under the [i] flag a Basic Latin letter matches
    both of its cases (the canonicalisation of a pattern without the [u]
    flag never identifies a code unit above 127 with one below). *)
Definition Chr (ignoreCase : bool) (c : char) : regex :=
  Class (fun x =>
    (x =? c)%N
    || ignoreCase && (isUpperAscii c && (x =? c + 32)%N
                      || isLowerAscii c && (x =? c - 32)%N)).

Fixpoint Str (ignoreCase : bool) (s : jstring) : regex :=
  match s with
  | [] => Eps
  | c :: s' => Seq (Chr ignoreCase c) (Str ignoreCase s')
  end.

Fixpoint AnyOf (rs : list regex) : regex :=
  match rs with
  | [] => Fail
  | [r] => r
  | r :: rs' => Alt r (AnyOf rs')
  end.

(** The language of a regular expression: the strings the engine may let
    it match. *)
Inductive inLang : regex -> jstring -> Prop :=
| inEps : inLang Eps []
| inClass (p : char -> bool) (c : char) : p c = true -> inLang (Class p) [c]
| inSeq (r1 r2 : regex) (s1 s2 : jstring) :
    inLang r1 s1 -> inLang r2 s2 -> inLang (Seq r1 r2) (s1 ++ s2)
| inAltL (r1 r2 : regex) (s : jstring) : inLang r1 s -> inLang (Alt r1 r2) s
| inAltR (r1 r2 : regex) (s : jstring) : inLang r2 s -> inLang (Alt r1 r2) s
| inStarNil (r : regex) : inLang (Star r) []
| inStarCons (r : regex) (s1 s2 : jstring) :
    inLang r s1 -> inLang (Star r) s2 -> inLang (Star r) (s1 ++ s2).

Fixpoint nullable (r : regex) : bool :=
  match r with
  | Fail => false
  | Eps => true
  | Class _ => false
  | Seq r1 r2 => nullable r1 && nullable r2
  | Alt r1 r2 => nullable r1 || nullable r2
  | Star _ => true
  end.

Definition mkSeq (r1 r2 : regex) : regex :=
  match r1, r2 with
  | Fail, _ => Fail
  | _, Fail => Fail
  | Eps, _ => r2
  | _, _ => Seq r1 r2
  end.

Definition mkAlt (r1 r2 : regex) : regex :=
  match r1, r2 with
  | Fail, _ => r2
  | _, Fail => r1
  | _, _ => Alt r1 r2
  end.

Fixpoint deriv (c : char) (r : regex) : regex :=
  match r with
  | Fail => Fail
  | Eps => Fail
  | Class p => if p c then Eps else Fail
  | Seq r1 r2 =>
      if nullable r1
      then mkAlt (mkSeq (deriv c r1) r2) (deriv c r2)
      else mkSeq (deriv c r1) r2
  | Alt r1 r2 => mkAlt (deriv c r1) (deriv c r2)
  | Star r1 => mkSeq (deriv c r1) (Star r1)
  end.

(** The whole of [s] is in the language of [r]. *)
Fixpoint matchesAll (r : regex) (s : jstring) : bool :=
  match s with
  | [] => nullable r
  | c :: s' => matchesAll (deriv c r) s'
  end.

(** Some prefix of [s] is in the language of [r]. *)
Fixpoint matchesPrefix (r : regex) (s : jstring) : bool :=
  nullable r ||
  match s with
  | [] => false
  | c :: s' => matchesPrefix (deriv c r) s'
  end.

(** [/r/.test(s)]: the engine tries the start positions 0, 1, ... in turn. *)
Fixpoint test (r : regex) (s : jstring) : bool :=
  matchesPrefix r s ||
  match s with
  | [] => false
  | _ :: s' => test r s'
  end.

(** [/^r$/.test(s)]: without the [m] flag the anchors pin the match to the
    whole input. *)
Definition testAnchored (r : regex) (s : jstring) : bool := matchesAll r s.

(** [s.match(/[...]/g)] for a pattern that is one character class: the
    array of the matches, [null] when there is none. *)
Definition matchClassG (p : char -> bool) (s : jstring) : option (list jstring) :=
  match List.filter p s with
  | [] => None
  | cs => Some (List.map (fun c => [c]) cs)
  end.

(** [s.replace(/[...]/g, t)] for a pattern that is one character class. *)
Definition replaceClassG (p : char -> bool) (t : jstring) (s : jstring) : jstring :=
  List.flat_map (fun c => if p c then t else [c]) s.

(** One attempt of [(.)\1{2,}] at the head of [s]: [.] takes a code unit
    that is no line terminator, [\1{2,}] takes greedily its repetitions and
    needs two of them. *)
Definition matchRepeatAt (s : jstring) : option jstring :=
  match s with
  | [] => None
  | c :: rest =>
      if isLineTerminator c then None
      else
        let run := takeWhile (N.eqb c) rest in
        if (2 <=? length run)%nat then Some (c :: run) else None
  end.

(** The successive matches of [/(.)\1{2,}/g]; [skip] counts the code units
    still covered by the previous match. *)
Fixpoint scanRepeat (skip : nat) (s : jstring) : list jstring :=
  match s with
  | [] => []
  | _ :: rest =>
      match skip with
      | S k => scanRepeat k rest
      | O =>
          match matchRepeatAt s with
          | Some m => m :: scanRepeat (length m - 1) rest
          | None => scanRepeat 0 rest
          end
      end
  end.

(** [s.match(/(.)\1{2,}/g)] *)
Definition matchRepeatG (s : jstring) : option (list jstring) :=
  match scanRepeat 0 s with
  | [] => None
  | ms => Some ms
  end.

End JS.

Import JS.

(* ===================================================================== *)
(** ** Validators and heuristic filters *)
(* ===================================================================== *)

Definition isVowel (c : char) : bool :=
  existsb (N.eqb c) (lit "aeiouAEIOU").

(** [function isGibberish(text)].  The quotient [consonantCount /
    text.length] is taken in the rationals: both operands are integers below
    2^53, the double-precision quotient is the correctly rounded one and
    rounding is monotone, so for every length below 2^50 the comparison with
    the literal [0.8] has the outcome of the exact comparison with 4/5. *)
Definition isGibberish (text : jstring) : bool :=
  if negb (truthy (Some text)) || (length text <? 2)%nat then false
  else
    let vowelCount := length (default [] (matchClassG isVowel text)) in
    let consonantCount := (length text - vowelCount)%nat in
    if (vowelCount =? 0)%nat
       || negb (Qle_bool (inject_Z (Z.of_nat consonantCount)
                          / inject_Z (Z.of_nat (length text))) (8 # 10))
    then true
    else
      let repeatedChars := matchRepeatG text in
      match repeatedChars with
      | Some ms => if (0 <? length ms)%nat then true else false
      | None => false
      end.

Definition notSpace (c : char) : bool := negb (isWhiteSpace c).

Definition tlds : list string :=
  ["com"; "net"; "org"; "edu"; "gov"; "mil"; "int"; "co"; "io"; "ly"; "me";
   "tv"; "info"; "biz"; "name"; "mobi"; "tel"; "travel"]%string.

(** The pattern of [urlRegex], flags [gi]; its three alternatives are
    [https?:\/\/[^\s]+], [www\.[^\s]+] and
    [[^\s]+\.(com|net|...|travel)] followed by [[^\s]] any number of times. *)
Definition urlRegex : regex :=
  AnyOf
    [ Seq (Str true (lit "http"))
        (Seq (Opt (Chr true 115%N))
           (Seq (Str true (lit "://")) (Plus (Class notSpace))));
      Seq (Str true (lit "www.")) (Plus (Class notSpace));
      Seq (Plus (Class notSpace))
        (Seq (Chr true 46%N)
           (Seq (AnyOf (List.map (fun t => Str true (lit t)) tlds))
              (Star (Class notSpace)))) ].

(** [function containsUrls(text)].  The regex object is created by the
    literal at each call, so its [lastIndex] is 0 when [test] runs. *)
Definition containsUrls (text : jstring) : bool := test urlRegex text.

Definition notSpaceAt (c : char) : bool :=
  negb (isWhiteSpace c) && negb (c =? 64)%N.

(** [/^[^\s@]+@[^\s@]+\.[^\s@]+$/] *)
Definition emailRegex : regex :=
  Seq (Plus (Class notSpaceAt))
    (Seq (Chr false 64%N)
       (Seq (Plus (Class notSpaceAt))
          (Seq (Chr false 46%N) (Plus (Class notSpaceAt))))).

Definition isValidEmail (email : jstring) : bool := testAnchored emailRegex email.

(** [function isValidPhone(phone)] *)
Definition isValidPhone (phone : jstring) : bool :=
  let phoneDigits := replaceClassG (fun c => negb (isDigit c)) [] phone in
  (10 <=? length phoneDigits)%nat.

(** [/^\d{5}(-\d{4})?$/] *)
Definition zipRegex : regex :=
  Seq (Times 5 (Class isDigit))
    (Opt (Seq (Chr false 45%N) (Times 4 (Class isDigit)))).

Definition isValidZipCode (zipCode : jstring) : bool := testAnchored zipRegex zipCode.

(* ===================================================================== *)
(** ** Rate limiter *)
(* ===================================================================== *)

Record RateLimitRecord := { count : Z; resetTime : Z }.

(** [const rateLimitStore = new Map<string, { count; resetTime }>()] *)
Abbreviation rateLimitStore := (gmap (list N) RateLimitRecord) (only parsing).

(** [function checkRateLimit(identifier, maxRequests = 3, windowMs = 60000)],
    with the value [now] of [Date.now()] and the store made explicit.
    [record.count++] updates the object held by the map. *)
Definition checkRateLimit (identifier : jstring) (maxRequests windowMs : Z)
    (now : Z) (store : rateLimitStore) : bool * rateLimitStore :=
  match store !! identifier with
  | None =>
      (true, <[identifier := {| count := 1; resetTime := now + windowMs |}]> store)
  | Some record =>
      if resetTime record <? now then
        (true, <[identifier := {| count := 1; resetTime := now + windowMs |}]> store)
      else if maxRequests <=? count record then
        (false, store)
      else
        (true, <[identifier := {| count := count record + 1;
                                  resetTime := resetTime record |}]> store)
  end.

(** A run of calls on the store, each with its identifier, window and clock;
    the limit is the same for all. *)
Fixpoint checkRateLimitAll (maxRequests : Z) (reqs : list (list N * Z * Z))
    (store : rateLimitStore) : list bool * rateLimitStore :=
  match reqs with
  | [] => ([], store)
  | (identifier, windowMs, now) :: reqs' =>
      let '(allowed, store1) := checkRateLimit identifier maxRequests windowMs now store in
      let '(rest, store2) := checkRateLimitAll maxRequests reqs' store1 in
      (allowed :: rest, store2)
  end.

(* ===================================================================== *)
(** ** Configuration, requests, responses, collaborators *)
(* ===================================================================== *)

(** The variables of [process.env] the module reads when it is loaded. *)
Record ProcessEnv := {
  ACS_CONNECTION_STRING : option jstring;
  SENDER_EMAIL_ADDRESS : option jstring;
  RECAPTCHA_SECRET_KEY : option jstring
}.

Definition CONNECTION_STRING (penv : ProcessEnv) : option jstring :=
  ACS_CONNECTION_STRING penv.

Definition SENDER_ADDRESS (penv : ProcessEnv) : jstring :=
  if truthy (SENDER_EMAIL_ADDRESS penv) then String_ (SENDER_EMAIL_ADDRESS penv)
  else lit "DoNotReply@2dde48cf-f3cb-436b-838a-1c27aa0e1c0c.azurecomm.net".

Definition RECIPIENT_ADDRESSES : list jstring :=
  [lit "brad@bullattorneys.com"; lit "sudheer@bullattorneys.com";
   lit "web@bullattorneys.com"].

Definition BLOCKED_EMAILS : list jstring :=
  [lit "jacobroyvisser55@gmail.com"; lit "jacobvisser45@gmail.com"].

(** [interface ContactFormData]; a property is [None] when the parsed object
    does not have it.  Property values are strings, as the interface
    declares. *)
Record ContactFormData := {
  firstName : option jstring;
  lastName : option jstring;
  email : option jstring;
  phone : option jstring;
  zipCode : option jstring;
  caseType : option jstring;
  description : option jstring;
  recaptchaToken : option jstring;
  website : option jstring
}.

(** [formData[field]] *)
Definition getField (field : string) (formData : ContactFormData) : option jstring :=
  if String.eqb field "firstName" then firstName formData
  else if String.eqb field "lastName" then lastName formData
  else if String.eqb field "email" then email formData
  else if String.eqb field "phone" then phone formData
  else if String.eqb field "zipCode" then zipCode formData
  else if String.eqb field "caseType" then caseType formData
  else if String.eqb field "description" then description formData
  else if String.eqb field "recaptchaToken" then recaptchaToken formData
  else if String.eqb field "website" then website formData
  else None.

(** What [await request.text()] followed by [JSON.parse] gives: an
    exception, the value [null], or a value whose properties can be read
    (a value that is no object has none of the form's properties). *)
Inductive ParsedBody :=
| BodyInvalid
| BodyNull
| BodyObject (formData : ContactFormData).

(** The part of [HttpRequest] the handler reads; the two header fields are
    the results of [request.headers.get]. *)
Record HttpRequest := {
  method : jstring;
  x_forwarded_for : option jstring;
  x_real_ip : option jstring;
  body : ParsedBody
}.

Inductive JsonValue :=
| JString (s : jstring)
| JBool (b : bool)
| JStrings (l : list jstring).

(** [HttpResponseInit]; [responseBody] is the object given to
    [JSON.stringify], [None] when the response has no body. *)
Record HttpResponseInit := {
  status : Z;
  headers : list (string * string);
  responseBody : option (list (string * JsonValue))
}.

Record EmailAddress := { address : jstring }.

Record EmailMessage := {
  senderAddress : jstring;
  subject : jstring;
  html : jstring;
  recipients_to : list EmailAddress
}.

(** The answer to the POST to the verification endpoint: [fetch] or
    [response.json()] failed, or the [success] and [score] properties of the
    parsed answer ([None] when the answer lacks the property). *)
Inductive SiteVerifyReply :=
| SiteVerifyThrows
| SiteVerifyData (success : option bool) (score : option Q).

(** [emailClient.beginSend] followed by [poller.pollUntilDone()]: the id of
    the result, or the message of the exception. *)
Inductive SendResult :=
| SendDone (id : jstring)
| SendThrows (errorMessage : jstring).

(** The world around one invocation. *)
Record Environment := {
  Date_now : Z;
  siteverify : jstring -> SiteVerifyReply;
  newEmailClient : jstring -> bool;
  beginSend : EmailMessage -> SendResult;
  submittedAt : jstring
}.

(** The outbound calls of an invocation. *)
Inductive call :=
| Fetch (url : jstring) (requestBody : jstring)
| BeginSend (message : EmailMessage).

Record CaptchaResult := { captchaSuccess : bool; captchaScore : Q }.

(** [async function validateRecaptcha(token)] *)
Definition validateRecaptcha (penv : ProcessEnv) (env : Environment)
    (token : jstring) : CaptchaResult * list call :=
  let requestBody :=
    lit "secret=" ++ String_ (RECAPTCHA_SECRET_KEY penv) ++ lit "&response=" ++ token in
  let sent := [Fetch (lit "https://www.google.com/recaptcha/api/siteverify") requestBody] in
  match siteverify env requestBody with
  | SiteVerifyData success score =>
      ({| captchaSuccess := default false success;
          captchaScore := default (0 # 1) score |}, sent)
  | SiteVerifyThrows =>
      ({| captchaSuccess := false; captchaScore := 0 # 1 |}, sent)
  end.

(* ===================================================================== *)
(** ** The handler *)
(* ===================================================================== *)

Definition jsonHeaders : list (string * string) :=
  [("Access-Control-Allow-Origin", "*"); ("Content-Type", "application/json")]%string.

Definition errorResponse (code : Z) (message : jstring) : HttpResponseInit :=
  {| status := code;
     headers := jsonHeaders;
     responseBody := Some [("error"%string, JString message)] |}.

Definition preflightResponse : HttpResponseInit :=
  {| status := 200;
     headers := [("Access-Control-Allow-Origin", "*");
                 ("Access-Control-Allow-Methods", "POST, OPTIONS");
                 ("Access-Control-Allow-Headers", "Content-Type, Accept");
                 ("Access-Control-Max-Age", "86400")]%string;
     responseBody := None |}.

Definition methodNotAllowed := errorResponse 405 (lit "Method not allowed").
Definition invalidRequestFormat := errorResponse 400 (lit "Invalid request format").
Definition spamDetected := errorResponse 400 (lit "Spam detected").
Definition emailNotAllowed := errorResponse 400 (lit "Email not allowed").
Definition tooManyRequests :=
  errorResponse 429 (lit "Too many requests. Please try again later.").
Definition invalidEmailFormat := errorResponse 400 (lit "Invalid email format").
Definition invalidPhoneNumber := errorResponse 400 (lit "Invalid phone number").
Definition invalidZipCode := errorResponse 400 (lit "Invalid zip code format").
Definition invalidNames := errorResponse 400 (lit "Please enter valid names").
Definition urlsNotAllowed :=
  errorResponse 400 (lit "URLs are not allowed in the description").
Definition recaptchaNotConfigured := errorResponse 500 (lit "reCAPTCHA not configured").
Definition recaptchaFailed := errorResponse 400 (lit "reCAPTCHA validation failed").
Definition emailNotConfigured := errorResponse 500 (lit "Email service not configured").
Definition internalServerError := errorResponse 500 (lit "Internal server error").

Definition failedToSend (errorMessage : jstring) : HttpResponseInit :=
  {| status := 500;
     headers := jsonHeaders;
     responseBody := Some [("error"%string, JString (lit "Failed to send email"));
                           ("details"%string, JString errorMessage)] |}.

Definition successResponse : HttpResponseInit :=
  {| status := 200;
     headers := jsonHeaders;
     responseBody := Some [("success"%string, JBool true);
                           ("message"%string, JString (lit "Form submitted successfully"))] |}.

Definition requiredFields : list string :=
  ["firstName"; "lastName"; "email"; "phone"; "zipCode"; "caseType"]%string.

Definition maxLengths : list (string * nat) :=
  [("firstName", 50); ("lastName", 50); ("email", 100); ("phone", 20);
   ("zipCode", 10); ("caseType", 50); ("description", 1200)]%string%nat.

(** The loop over [requiredFields]: the response of the first field that is
    missing, empty or blank. *)
Fixpoint checkRequired (fields : list string) (formData : ContactFormData)
    : option HttpResponseInit :=
  match fields with
  | [] => None
  | field :: fields' =>
      if negb (truthy (getField field formData))
         || strictEq (trim (String_ (getField field formData))) []
      then Some (errorResponse 400 (lit field ++ lit " is required"))
      else checkRequired fields' formData
  end.

(** The loop over [Object.entries(maxLengths)]. *)
Fixpoint checkLengths (limits : list (string * nat)) (formData : ContactFormData)
    : option HttpResponseInit :=
  match limits with
  | [] => None
  | (field, maxLength) :: limits' =>
      let value := getField field formData in
      if truthy value && (maxLength <? length (String_ value))%nat
      then Some (errorResponse 400
                   (lit field ++ lit " is too long (max " ++ ofNat maxLength
                    ++ lit " characters)"))
      else checkLengths limits' formData
  end.

(** Format, name and description checks, on the six required values once
    the loop over [requiredFields] has let them through. *)
Definition checkFormats (formData : ContactFormData) : option HttpResponseInit :=
  match firstName formData, lastName formData, email formData,
        phone formData, zipCode formData with
  | Some first, Some last, Some mail, Some tel, Some zip =>
      if negb (isValidEmail mail) then Some invalidEmailFormat
      else if negb (isValidPhone tel) then Some invalidPhoneNumber
      else if negb (isValidZipCode zip) then Some invalidZipCode
      else if isGibberish first || isGibberish last then Some invalidNames
      else if truthy (description formData)
              && containsUrls (String_ (description formData))
      then Some urlsNotAllowed
      else None
  | _, _, _, _, _ =>
      (* a required value is missing: not reached after the loop over
         [requiredFields], see [checkRequired_passed], [checkFields_status] *)
      Some internalServerError
  end.

Definition checkFields (formData : ContactFormData) : option HttpResponseInit :=
  match checkRequired requiredFields formData with
  | Some response => Some response
  | None =>
      match checkLengths maxLengths formData with
      | Some response => Some response
      | None => checkFormats formData
      end
  end.

(** The handler from the honeypot check to the check of the description:
    the response of the first check that fails, if any, and the store. *)
Definition validateSubmission (formData : ContactFormData) (clientIp : jstring)
    (now : Z) (store : rateLimitStore) : option HttpResponseInit * rateLimitStore :=
  if truthy (website formData)
     && negb (strictEq (trim (String_ (website formData))) [])
  then (Some spamDetected, store)
  else if truthy (email formData)
          && includes BLOCKED_EMAILS (toLowerCase (String_ (email formData)))
  then (Some emailNotAllowed, store)
  else
    let '(allowed, store') := checkRateLimit clientIp 3 60000 now store in
    if negb allowed then (Some tooManyRequests, store')
    else (checkFields formData, store').

(** The captcha step. *)
Definition verifyCaptcha (penv : ProcessEnv) (env : Environment)
    (formData : ContactFormData) : option HttpResponseInit * list call :=
  if truthy (recaptchaToken formData) then
    if negb (truthy (RECAPTCHA_SECRET_KEY penv)) then (Some recaptchaNotConfigured, [])
    else
      let '(recaptchaResult, sent) :=
        validateRecaptcha penv env (String_ (recaptchaToken formData)) in
      if negb (captchaSuccess recaptchaResult)
         || negb (Qle_bool (1 # 2) (captchaScore recaptchaResult))
      then (Some recaptchaFailed, sent)
      else (None, sent)
  else (None, []).

Definition emailSubject (formData : ContactFormData) : jstring :=
  lit "New Contact Form Submission - " ++ String_ (caseType formData).

Definition emailBody (env : Environment) (formData : ContactFormData)
    (clientIp : jstring) : jstring :=
  let line := [10%N] ++ lit "      " in
  line ++ lit "<h2>New Contact Form Submission</h2>"
  ++ line ++ lit "<p><strong>Name:</strong> " ++ String_ (firstName formData)
          ++ lit " " ++ String_ (lastName formData) ++ lit "</p>"
  ++ line ++ lit "<p><strong>Email:</strong> " ++ String_ (email formData) ++ lit "</p>"
  ++ line ++ lit "<p><strong>Phone:</strong> " ++ String_ (phone formData) ++ lit "</p>"
  ++ line ++ lit "<p><strong>Zip Code:</strong> " ++ String_ (zipCode formData) ++ lit "</p>"
  ++ line ++ lit "<p><strong>Case Type:</strong> " ++ String_ (caseType formData) ++ lit "</p>"
  ++ line ++ (if truthy (description formData)
              then lit "<p><strong>Description:</strong><br>"
                   ++ replaceClassG (N.eqb 10) (lit "<br>") (String_ (description formData))
                   ++ lit "</p>"
              else [])
  ++ line ++ lit "<p><strong>Submitted:</strong> " ++ submittedAt env ++ lit "</p>"
  ++ line ++ lit "<p><strong>IP Address:</strong> " ++ clientIp ++ lit "</p>"
  ++ [10%N] ++ lit "    ".

Definition emailMessage (penv : ProcessEnv) (env : Environment)
    (formData : ContactFormData) (clientIp : jstring) : EmailMessage :=
  {| senderAddress := SENDER_ADDRESS penv;
     subject := emailSubject formData;
     html := emailBody env formData clientIp;
     recipients_to := List.map (fun email => {| address := email |}) RECIPIENT_ADDRESSES |}.

(** The dispatch step.  An exception of [new EmailClient] is not caught by
    the [try] around [beginSend]; it reaches the outer [catch]. *)
Definition sendEmail (penv : ProcessEnv) (env : Environment)
    (formData : ContactFormData) (clientIp : jstring) : HttpResponseInit * list call :=
  if negb (truthy (CONNECTION_STRING penv)) then (emailNotConfigured, [])
  else if negb (newEmailClient env (String_ (CONNECTION_STRING penv)))
  then (internalServerError, [])
  else
    let message := emailMessage penv env formData clientIp in
    match beginSend env message with
    | SendDone _ => (successResponse, [BeginSend message])
    | SendThrows errorMessage => (failedToSend errorMessage, [BeginSend message])
    end.

(** What an invocation leaves behind. *)
Record Outcome := {
  response : HttpResponseInit;
  storeAfter : rateLimitStore;
  calls : list call
}.

Definition getClientIp (request : HttpRequest) : jstring :=
  if truthy (x_forwarded_for request) then String_ (x_forwarded_for request)
  else if truthy (x_real_ip request) then String_ (x_real_ip request)
  else lit "unknown".

(** [export async function contactForm(request, context)] *)
Definition contactForm (penv : ProcessEnv) (env : Environment)
    (request : HttpRequest) (store : rateLimitStore) : Outcome :=
  if strictEq (method request) (lit "OPTIONS") then
    {| response := preflightResponse; storeAfter := store; calls := [] |}
  else if negb (strictEq (method request) (lit "POST")) then
    {| response := methodNotAllowed; storeAfter := store; calls := [] |}
  else
    let clientIp := getClientIp request in
    match body request with
    | BodyInvalid =>
        {| response := invalidRequestFormat; storeAfter := store; calls := [] |}
    | BodyNull =>
        (* reading [formData.firstName] throws; the outer [catch] answers *)
        {| response := internalServerError; storeAfter := store; calls := [] |}
    | BodyObject formData =>
        match validateSubmission formData clientIp (Date_now env) store with
        | (Some rejected, store') =>
            {| response := rejected; storeAfter := store'; calls := [] |}
        | (None, store') =>
            match verifyCaptcha penv env formData with
            | (Some rejected, sent) =>
                {| response := rejected; storeAfter := store'; calls := sent |}
            | (None, sent) =>
                let '(answer, sent') := sendEmail penv env formData clientIp in
                {| response := answer; storeAfter := store'; calls := sent ++ sent' |}
            end
        end
    end.

(* ===================================================================== *)
(** ** The handler of src/functions/contactForm.ts *)
(* ===================================================================== *)

(** The repository holds a second [contactForm], without the anti-abuse
    pipeline: it checks that the six required fields are present, then
    sends a notification to the firm and an auto-reply to the submitter. *)
Module Plain.

Definition RECIPIENT_ADDRESSES : list jstring :=
  [lit "brad@bullattorneys.com"; lit "web@bullattorneys.com"].

Record ContactFormData := {
  firstName : option jstring;
  lastName : option jstring;
  email : option jstring;
  phone : option jstring;
  zipCode : option jstring;
  caseType : option jstring;
  description : option jstring
}.

(** [await request.text()] may throw (with a message); then [JSON.parse]
    throws, or gives [null], or a value whose properties can be read. *)
Inductive ParsedBody :=
| BodyUnreadable (message : jstring)
| BodyInvalid
| BodyNull
| BodyObject (formData : ContactFormData).

Record Response := {
  status : Z;
  jsonBody : list (string * JsonValue)
}.

Record Message := {
  senderAddress : jstring;
  subject : jstring;
  plainText : jstring;
  html : jstring;
  recipients_to : list EmailAddress
}.

(** [typeErrorMessage] is the wording of the engine for reading the named
    property of [null] or [undefined]; [newEmailClient] gives the message of
    the exception of the constructor, if it throws. *)
Record Environment := {
  typeErrorMessage : string -> jstring;
  newEmailClient : jstring -> option jstring;
  beginSend : Message -> SendResult
}.

Record Outcome := {
  response : Response;
  sent : list Message
}.

Definition serverError (message : jstring) : Response :=
  {| status := 500;
     jsonBody := [("error"%string,
                   JString (lit "An error occurred while processing your request"));
                  ("message"%string, JString message)] |}.

Definition missing (field : string) (value : option jstring) : list jstring :=
  if truthy value then [] else [lit field].

Definition notificationEmail (penv : ProcessEnv) (formData : ContactFormData) : Message :=
  let line := [10%N] ++ lit "            " in
  {| senderAddress := SENDER_ADDRESS penv;
     subject := lit "New Contact Form - " ++ String_ (caseType formData) ++ lit " Case";
     plainText :=
       lit "New Contact Form Submission" ++ [10%N]
       ++ lit "Case Type: " ++ String_ (caseType formData) ++ [10%N]
       ++ lit "Name: " ++ String_ (firstName formData) ++ lit " "
       ++ String_ (lastName formData) ++ [10%N]
       ++ lit "Email: " ++ String_ (email formData) ++ [10%N]
       ++ lit "Phone: " ++ String_ (phone formData) ++ [10%N]
       ++ lit "Zip Code: " ++ String_ (zipCode formData)
       ++ (if truthy (description formData)
           then [10%N] ++ lit "Description: " ++ String_ (description formData)
           else []);
     html :=
       line ++ lit "<h2>New Contact Form Submission</h2>"
       ++ line ++ lit "<p><strong>Case Type:</strong> " ++ String_ (caseType formData)
       ++ lit "</p>"
       ++ line ++ lit "<p><strong>Name:</strong> " ++ String_ (firstName formData)
       ++ lit " " ++ String_ (lastName formData) ++ lit "</p>"
       ++ line ++ lit "<p><strong>Email:</strong> " ++ String_ (email formData)
       ++ lit "</p>"
       ++ line ++ lit "<p><strong>Phone:</strong> " ++ String_ (phone formData)
       ++ lit "</p>"
       ++ line ++ lit "<p><strong>Zip Code:</strong> " ++ String_ (zipCode formData)
       ++ lit "</p>"
       ++ line ++ (if truthy (description formData)
                   then lit "<p><strong>Description:</strong><br>"
                        ++ String_ (description formData) ++ lit "</p>"
                   else [])
       ++ [10%N] ++ lit "          ";
     recipients_to := List.map (fun address => {| address := address |})
                        RECIPIENT_ADDRESSES |}.

Definition autoReplyEmail (penv : ProcessEnv) (formData : ContactFormData) : Message :=
  let line := [10%N] ++ lit "            " in
  let quote := [34%N] in
  {| senderAddress := SENDER_ADDRESS penv;
     subject := lit "Thank you for contacting Bull Attorneys";
     plainText :=
       lit "Thank you for contacting Bull Attorneys" ++ [10%N; 10%N]
       ++ lit "Dear " ++ String_ (firstName formData) ++ lit " "
       ++ String_ (lastName formData) ++ lit "," ++ [10%N; 10%N]
       ++ lit "We have received your inquiry regarding your "
       ++ String_ (caseType formData)
       ++ lit " case. One of our attorneys will review your information and contact you shortly."
       ++ [10%N; 10%N]
       ++ lit "If you need immediate assistance, please call us at (316) 684-4400."
       ++ [10%N; 10%N]
       ++ lit "Best regards," ++ [10%N] ++ lit "Bull Attorneys Team";
     html :=
       line ++ lit "<h2>Thank you for contacting Bull Attorneys</h2>"
       ++ line ++ lit "<p>Dear " ++ String_ (firstName formData) ++ lit " "
       ++ String_ (lastName formData) ++ lit ",</p>"
       ++ line ++ lit "<p>We have received your inquiry regarding your "
       ++ String_ (caseType formData)
       ++ lit " case. One of our attorneys will review your information and contact you shortly.</p>"
       ++ line ++ lit "<p>If you need immediate assistance, please call us at <a href="
       ++ quote ++ lit "tel:+13166844400" ++ quote ++ lit ">(316) 684-4400</a>.</p>"
       ++ line ++ lit "<p>Best regards,<br>Bull Attorneys Team</p>"
       ++ [10%N] ++ lit "          ";
     recipients_to := [{| address := String_ (email formData) |}] |}.

(** [export async function contactForm(request, context)] of
    src/functions/contactForm.ts.  An exception of the constructor or of a
    dispatch is wrapped by the [catch] around the email code and reaches the
    outer [catch]. *)
Definition contactForm (penv : ProcessEnv) (env : Environment)
    (body : ParsedBody) : Outcome :=
  match body with
  | BodyUnreadable message => {| response := serverError message; sent := [] |}
  | BodyInvalid =>
      {| response := {| status := 400;
                        jsonBody := [("error"%string,
                                      JString (lit "Invalid JSON in request body"))] |};
         sent := [] |}
  | BodyNull =>
      {| response := serverError (typeErrorMessage env "firstName"); sent := [] |}
  | BodyObject formData =>
      if negb (truthy (firstName formData)) || negb (truthy (lastName formData))
         || negb (truthy (email formData)) || negb (truthy (phone formData))
         || negb (truthy (zipCode formData)) || negb (truthy (caseType formData))
      then
        let missingFields :=
          missing "firstName" (firstName formData)
          ++ missing "lastName" (lastName formData)
          ++ missing "email" (email formData)
          ++ missing "phone" (phone formData)
          ++ missing "zipCode" (zipCode formData)
          ++ missing "caseType" (caseType formData) in
        {| response :=
             {| status := 400;
                jsonBody := [("error"%string,
                              JString (lit "All required fields must be filled out"));
                             ("missingFields"%string, JStrings missingFields)] |};
           sent := [] |}
      else
        match CONNECTION_STRING penv with
        | None =>
            {| response := serverError (typeErrorMessage env "substring"); sent := [] |}
        | Some connection =>
            let wrap message := lit "Failed to initialize email client: " ++ message in
            match newEmailClient env connection with
            | Some message => {| response := serverError (wrap message); sent := [] |}
            | None =>
                let notification := notificationEmail penv formData in
                match beginSend env notification with
                | SendThrows message =>
                    {| response :=
                         serverError
                           (wrap (lit "Failed to send notification email: " ++ message));
                       sent := [notification] |}
                | SendDone _ =>
                    let autoReply := autoReplyEmail penv formData in
                    match beginSend env autoReply with
                    | SendThrows message =>
                        {| response :=
                             serverError
                               (wrap (lit "Failed to send auto-reply email: " ++ message));
                           sent := [notification; autoReply] |}
                    | SendDone _ =>
                        {| response :=
                             {| status := 200;
                                jsonBody := [("message"%string,
                                              JString (lit "Form submitted successfully"))] |};
                           sent := [notification; autoReply] |}
                    end
                end
            end
        end
  end.

End Plain.

(* ===================================================================== *)
(** ** Vocabulary of the properties *)
(* ===================================================================== *)

(** The record a new window starts with. *)
Definition freshRecord (now windowMs : Z) : RateLimitRecord :=
  {| count := 1; resetTime := now + windowMs |}.

(** The count of a record lies between 1 and the limit. *)
Definition countInRange (maxRequests : Z) (_ : list N) (record : RateLimitRecord) : Prop :=
  1 <= count record <= maxRequests.

(** The number of digits of a string, counted one code unit at a time. *)
Fixpoint digitCount (s : jstring) : nat :=
  match s with
  | [] => 0
  | c :: s' => ((if isDigit c then 1 else 0) + digitCount s')%nat
  end.

Definition noVowel (text : jstring) : Prop :=
  Forall (fun c => isVowel c = false) text.

Definition nonVowelCount (text : jstring) : nat :=
  length (List.filter (fun c => negb (isVowel c)) text).

(** More than 0.8 of the code units are not vowels. *)
Definition mostlyConsonants (text : jstring) : Prop :=
  (8 # 10 < inject_Z (Z.of_nat (nonVowelCount text))
            / inject_Z (Z.of_nat (length text)))%Q.

(** Three equal code units in a row, starting at some index. *)
Definition hasTriple (text : jstring) : Prop :=
  exists (i : nat) (c : N),
    text !! i = Some c /\ text !! S i = Some c /\ text !! S (S i) = Some c.

(** The same, the repeated code unit being no line terminator. *)
Definition hasTripleOnLine (text : jstring) : Prop :=
  exists (i : nat) (c : N),
    isLineTerminator c = false
    /\ text !! i = Some c /\ text !! S i = Some c /\ text !! S (S i) = Some c.

(** The property as the specification words it. *)
Definition gibberishAsSpecified (text : jstring) : Prop :=
  (2 <= length text)%nat
  /\ (noVowel text \/ mostlyConsonants text \/ hasTriple text).

Definition blank (s : jstring) : Prop := Forall (fun c => isWhiteSpace c = true) s.

(** A required value: present, not blank, within its limit. *)
Definition filled (value : option jstring) (limit : nat) : Prop :=
  exists v, value = Some v /\ ~ blank v /\ (length v <= limit)%nat.

(** The client is under its limit of 3 requests per window. *)
Definition underRateLimit (store : gmap (list N) RateLimitRecord)
    (identifier : list N) (now : Z) : Prop :=
  match store !! identifier with
  | None => True
  | Some record => resetTime record < now \/ count record < 3
  end.

(** A submission that passes every check before the one of the description:
    a POST whose body parses to [formData], honeypot empty, email not on
    the blocklist, client under its rate limit, the six required fields
    filled within their limits, formats valid, names not gibberish. *)
Record PassesChecks (env : Environment) (request : HttpRequest)
    (store : gmap (list N) RateLimitRecord) (formData : ContactFormData) : Prop := {
  pc_method : method request = lit "POST";
  pc_body : body request = BodyObject formData;
  pc_honeypot : forall w, website formData = Some w -> blank w;
  pc_blocklist : forall mail, email formData = Some mail ->
                 ~ In (toLowerCase mail) BLOCKED_EMAILS;
  pc_rate : underRateLimit store (getClientIp request) (Date_now env);
  pc_firstName : filled (firstName formData) 50;
  pc_lastName : filled (lastName formData) 50;
  pc_email : filled (email formData) 100;
  pc_phone : filled (phone formData) 20;
  pc_zipCode : filled (zipCode formData) 10;
  pc_caseType : filled (caseType formData) 50;
  pc_email_format : forall mail, email formData = Some mail -> isValidEmail mail = true;
  pc_phone_format : forall tel, phone formData = Some tel -> isValidPhone tel = true;
  pc_zip_format : forall zip, zipCode formData = Some zip -> isValidZipCode zip = true;
  pc_first_name : forall name, firstName formData = Some name -> isGibberish name = false;
  pc_last_name : forall name, lastName formData = Some name -> isGibberish name = false
}.

(** The description is absent, or free of URLs. *)
Definition urlFree (formData : ContactFormData) : Prop :=
  forall d, description formData = Some d -> containsUrls d = false.

Definition withinDescriptionLimit (formData : ContactFormData) : Prop :=
  forall d, description formData = Some d -> (length d <= 1200)%nat.

(** The end-to-end property as the specification words it. *)
Definition acceptsAsSpecified (penv : ProcessEnv) (env : Environment)
    (request : HttpRequest) (store : gmap (list N) RateLimitRecord)
    (formData : ContactFormData) : Prop :=
  PassesChecks env request store formData ->
  recaptchaToken formData = None ->
  urlFree formData ->
  let out := contactForm penv env request store in
  status (response out) = 200
  /\ exists message,
       calls out = [BeginSend message]
       /\ List.map address (recipients_to message) = RECIPIENT_ADDRESSES.

(** What is left of [checkFields] once the required fields are settled. *)
Definition descriptionVerdict (formData : ContactFormData) : option HttpResponseInit :=
  if truthy (description formData)
     && (1200 <? length (String_ (description formData)))%nat
  then Some (errorResponse 400 (lit "description is too long (max 1200 characters)"))
  else if truthy (description formData)
          && containsUrls (String_ (description formData))
  then Some urlsNotAllowed
  else None.

(** The submission gets as far as the captcha step: it is a POST whose body
    parses to [formData], and no check from the honeypot to the description
    has answered; [store'] is the store the rate limiter leaves. *)
Definition reachesCaptchaStep (env : Environment) (request : HttpRequest)
    (store : gmap (list N) RateLimitRecord) (formData : ContactFormData)
    (store' : gmap (list N) RateLimitRecord) : Prop :=
  method request = lit "POST"
  /\ body request = BodyObject formData
  /\ validateSubmission formData (getClientIp request) (Date_now env) store
     = (None, store').

(** Sample data: a submission that passes, its request, two
    configurations and a world. *)
Definition sampleForm (about token site : option jstring) : ContactFormData :=
  {| firstName := Some (lit "Jane");
     lastName := Some (lit "Carter");
     email := Some (lit "jane.carter@example.test");
     phone := Some (lit "(316) 684-4400");
     zipCode := Some (lit "67202");
     caseType := Some (lit "Personal Injury");
     description := about;
     recaptchaToken := token;
     website := site |}.

Definition sampleRequest (formData : ContactFormData) : HttpRequest :=
  {| method := lit "POST";
     x_forwarded_for := Some (lit "203.0.113.7");
     x_real_ip := None;
     body := BodyObject formData |}.

Definition sampleProcessEnv : ProcessEnv :=
  {| ACS_CONNECTION_STRING := Some (lit "endpoint=https://mail.example.test/;accesskey=a2V5");
     SENDER_EMAIL_ADDRESS := None;
     RECAPTCHA_SECRET_KEY := Some (lit "secret-key") |}.

Definition unconfiguredProcessEnv : ProcessEnv :=
  {| ACS_CONNECTION_STRING := None;
     SENDER_EMAIL_ADDRESS := None;
     RECAPTCHA_SECRET_KEY := None |}.

(** A world where the captcha endpoint answers with the given score and the
    email client answers as given. *)
Definition sampleEnvironment (score : Q) (sending : SendResult) : Environment :=
  {| Date_now := 1000;
     siteverify := fun _ => SiteVerifyData (Some true) (Some score);
     newEmailClient := fun _ => true;
     beginSend := fun _ => sending;
     submittedAt := lit "Nov 1, 2026, 9:00:00 AM" |}.

(** The same world, except that [new EmailClient] throws. *)
Definition noClientEnvironment : Environment :=
  {| Date_now := 1000;
     siteverify := fun _ => SiteVerifyData (Some true) (Some (9 # 10));
     newEmailClient := fun _ => false;
     beginSend := fun _ => SendDone (lit "op-1");
     submittedAt := lit "Nov 1, 2026, 9:00:00 AM" |}.

Definition plainForm : Plain.ContactFormData :=
  {| Plain.firstName := Some (lit "Jane");
     Plain.lastName := Some (lit "Carter");
     Plain.email := Some (lit "jane.carter@example.test");
     Plain.phone := Some (lit "(316) 684-4400");
     Plain.zipCode := Some (lit "67202");
     Plain.caseType := Some (lit "Personal Injury");
     Plain.description := None |}.

Definition plainEnvironment : Plain.Environment :=
  {| Plain.typeErrorMessage := fun _ => lit "Cannot read properties";
     Plain.newEmailClient := fun _ => None;
     Plain.beginSend := fun _ => SendDone (lit "op-1") |}.

Definition sampleStory : option jstring :=
  Some (lit "I was rear-ended last week and need advice").

(** Calls of one client: the identifier paired with each window and clock. *)
Definition callsOf (identifier : list N) (later : list (Z * Z)) : list (list N * Z * Z) :=
  List.map (fun wt => (identifier, wt.1, wt.2)) later.

(** The answers to [n] calls when [budget] of them can still be allowed. *)
Definition answersWithin (budget n : nat) : list bool :=
  repeat true (Nat.min n budget) ++ repeat false (n - budget).

Definition allDigits (s : jstring) : Prop := Forall (fun c => isDigit c = true) s.

(** A non-empty run of code units that are neither whitespace nor [@]. *)
Definition emailPart (s : jstring) : Prop :=
  s <> [] /\ Forall (fun c => notSpaceAt c = true) s.

(** A Basic Latin capital folded to its small letter. *)
Definition foldCase (c : N) : N := if isUpperAscii c then (c + 32)%N else c.

(** [s] spells [word], in any mix of capitals and small letters. *)
Definition spelled (word : string) (s : jstring) : Prop :=
  List.map foldCase s = lit word.

(** The three shapes of a URL-like token: a scheme followed by a code unit
    that is no whitespace, [www.] followed by one, or one followed by a dot
    and one of the listed suffixes. *)
Inductive urlLike : jstring -> Prop :=
| urlScheme (pre scheme post : jstring) (c : N) :
    spelled "http://" scheme \/ spelled "https://" scheme ->
    notSpace c = true ->
    urlLike (pre ++ scheme ++ c :: post)
| urlWww (pre www post : jstring) (c : N) :
    spelled "www." www ->
    notSpace c = true ->
    urlLike (pre ++ www ++ c :: post)
| urlSuffix (pre suffix post : jstring) (c : N) (tld : string) :
    In tld tlds ->
    spelled tld suffix ->
    notSpace c = true ->
    urlLike (pre ++ c :: 46%N :: suffix ++ post).

(** The header every answer carries for cross-origin callers. *)
Definition allowsAnyOrigin (answer : HttpResponseInit) : Prop :=
  In ("Access-Control-Allow-Origin", "*")%string (headers answer).

(** A required value is there: a string that is not blank. *)
Definition present (value : option jstring) : Prop :=
  exists v, value = Some v /\ ~ blank v.

(** The honeypot is empty or blank and the email is not on the blocklist:
    the submission gets to the rate limiter. *)
Definition reachesRateLimiter (formData : ContactFormData) : Prop :=
  (forall w, website formData = Some w -> blank w)
  /\ (forall mail, email formData = Some mail ->
      ~ In (toLowerCase mail) BLOCKED_EMAILS).

(** The invocations of one process, in the order they run: each has its
    own world and request, and finds the store the previous one left. *)
Fixpoint serve (penv : ProcessEnv) (arrivals : list (Environment * HttpRequest))
    (store : gmap (list N) RateLimitRecord)
    : list Outcome * gmap (list N) RateLimitRecord :=
  match arrivals with
  | [] => ([], store)
  | (env, request) :: arrivals' =>
      let out := contactForm penv env request store in
      let '(outs, store') := serve penv arrivals' (storeAfter out) in
      (out :: outs, store')
  end.

(** A POST of the client [clientIp] whose body parses and gets past the
    honeypot and the blocklist. *)
Definition countedArrival (clientIp : list N) (arrival : Environment * HttpRequest) : Prop :=
  method arrival.2 = lit "POST"
  /\ getClientIp arrival.2 = clientIp
  /\ exists formData, body arrival.2 = BodyObject formData
                      /\ reachesRateLimiter formData.

Definition refused (out : Outcome) : bool := status (response out) =? 429.

(** The verification endpoint vouched for the token of the submission:
    asked with the configured secret and the token, it answered
    [success: true] with a score of at least 0.5. *)
Definition captchaApproved (penv : ProcessEnv) (env : Environment)
    (formData : ContactFormData) : Prop :=
  truthy (RECAPTCHA_SECRET_KEY penv) = true
  /\ exists score,
       siteverify env
         (lit "secret=" ++ String_ (RECAPTCHA_SECRET_KEY penv)
          ++ lit "&response=" ++ String_ (recaptchaToken formData))
       = SiteVerifyData (Some true) (Some score)
       /\ (1 # 2 <= score)%Q.

(** The names of the required fields of a submission to the handler of
    src/functions/contactForm.ts whose value is missing or empty, in the
    order of the checks. *)
Definition plainMissing (formData : Plain.ContactFormData) : list jstring :=
  List.map (fun entry => lit entry.1)
    (List.filter (fun entry => negb (truthy entry.2))
       [("firstName", Plain.firstName formData);
        ("lastName", Plain.lastName formData);
        ("email", Plain.email formData);
        ("phone", Plain.phone formData);
        ("zipCode", Plain.zipCode formData);
        ("caseType", Plain.caseType formData)]%string).

(* ===================================================================== *)
(** ** The regular-expression matcher decides the language *)
(* ===================================================================== *)

Section Regex.

Implicit Types (r : regex) (s : list N) (c : N).

Lemma nullable_spec r : nullable r = true <-> inLang r [].
Proof.
  split.
  - induction r as [| | p | r1 IH1 r2 IH2 | r1 IH1 r2 IH2 | r IH]; simpl; intros H.
    + discriminate.
    + constructor.
    + discriminate.
    + apply andb_prop in H as [H1 H2].
      change (@nil N) with (@nil N ++ @nil N). constructor; auto.
    + apply orb_prop in H as [H | H]; [apply inAltL | apply inAltR]; auto.
    + constructor.
  - intros H. remember (@nil N) as s eqn:Hs.
    induction H as [| p c Hp | r1 r2 s1 s2 H1 IH1 H2 IH2 | r1 r2 s H IH
                    | r1 r2 s H IH | r | r s1 s2 H1 IH1 H2 IH2]; simpl.
    + reflexivity.
    + discriminate.
    + apply List.app_eq_nil in Hs as [-> ->]. now rewrite IH1, IH2.
    + now rewrite IH.
    + rewrite IH by assumption. apply orb_true_r.
    + reflexivity.
    + reflexivity.
Qed.

Lemma inLang_Fail s : ~ inLang Fail s.
Proof. intros H. inversion H. Qed.

Lemma inLang_Eps s : inLang Eps s <-> s = [].
Proof. split; [intros H; now inversion H | intros ->; constructor]. Qed.

Lemma inLang_Seq r1 r2 s :
  inLang (Seq r1 r2) s <-> exists s1 s2, s = s1 ++ s2 /\ inLang r1 s1 /\ inLang r2 s2.
Proof.
  split.
  - intros H. inversion H; subst. eauto.
  - intros (s1 & s2 & -> & H1 & H2). now constructor.
Qed.

Lemma inLang_Alt r1 r2 s : inLang (Alt r1 r2) s <-> inLang r1 s \/ inLang r2 s.
Proof.
  split.
  - intros H. inversion H; subst; auto.
  - intros [H | H]; [now apply inAltL | now apply inAltR].
Qed.

Lemma mkSeq_spec r1 r2 s : inLang (mkSeq r1 r2) s <-> inLang (Seq r1 r2) s.
Proof.
  rewrite inLang_Seq.
  assert (Hfail1 : forall r, inLang Fail s <-> exists s1 s2,
               s = s1 ++ s2 /\ inLang Fail s1 /\ inLang r s2).
  { intros r. split; [intros H; now apply inLang_Fail in H |].
    intros (s1 & _ & _ & H & _). now apply inLang_Fail in H. }
  assert (Hfail2 : forall r, inLang Fail s <-> exists s1 s2,
               s = s1 ++ s2 /\ inLang r s1 /\ inLang Fail s2).
  { intros r. split; [intros H; now apply inLang_Fail in H |].
    intros (_ & s2 & _ & _ & H). now apply inLang_Fail in H. }
  assert (Heps : forall r, inLang r s <-> exists s1 s2,
               s = s1 ++ s2 /\ inLang Eps s1 /\ inLang r s2).
  { intros r. split.
    - intros H. exists [], s. repeat split; [constructor | exact H].
    - intros (s1 & s2 & -> & H1 & H2). apply inLang_Eps in H1. now subst. }
  destruct r1; destruct r2; simpl;
    try apply Hfail1; try apply Hfail2; try apply Heps;
    (rewrite <- inLang_Seq; reflexivity).
Qed.

Lemma mkAlt_spec r1 r2 s : inLang (mkAlt r1 r2) s <-> inLang (Alt r1 r2) s.
Proof.
  rewrite inLang_Alt.
  pose proof (inLang_Fail s) as Hfail.
  destruct r1; destruct r2; simpl; rewrite ?inLang_Alt; tauto.
Qed.

Lemma inLang_Star_cons r c s :
  inLang (Star r) (c :: s) ->
  exists s1 s2, s = s1 ++ s2 /\ inLang r (c :: s1) /\ inLang (Star r) s2.
Proof.
  intros H. remember (Star r) as r' eqn:Hr. remember (c :: s) as w eqn:Hw.
  revert s Hw.
  induction H as [| p d Hp | r1 r2 s1 s2 H1 IH1 H2 IH2 | r1 r2 t H IH
                  | r1 r2 t H IH | r0 | r0 s1 s2 H1 IH1 H2 IH2];
    intros s Hw; try discriminate.
  injection Hr as ->.
  destruct s1 as [| d s1].
  - simpl in Hw. now apply IH2.
  - simpl in Hw. injection Hw as -> <-. eauto.
Qed.

Lemma deriv_spec c r : forall s, inLang (deriv c r) s <-> inLang r (c :: s).
Proof.
  induction r as [| | p | r1 IH1 r2 IH2 | r1 IH1 r2 IH2 | r IH]; intros s; simpl.
  - split; intros H; inversion H.
  - split; intros H; inversion H.
  - destruct (p c) eqn:Hp.
    + rewrite inLang_Eps. split.
      * intros ->. now constructor.
      * intros H. now inversion H.
    + split; intros H; inversion H; subst; congruence.
  - assert (Hhead : inLang (mkSeq (deriv c r1) r2) s <->
                    exists s1 s2, s = s1 ++ s2 /\ inLang r1 (c :: s1) /\ inLang r2 s2).
    { rewrite mkSeq_spec, inLang_Seq. split.
      - intros (s1 & s2 & -> & H1 & H2). apply IH1 in H1. eauto.
      - intros (s1 & s2 & -> & H1 & H2). apply IH1 in H1. eauto. }
    destruct (nullable r1) eqn:Hnull.
    + rewrite mkAlt_spec, inLang_Alt, Hhead, IH2, inLang_Seq. split.
      * intros [(s1 & s2 & -> & H1 & H2) | H].
        -- exists (c :: s1), s2. auto.
        -- exists [], (c :: s). repeat split; [now apply nullable_spec | exact H].
      * intros (s1 & s2 & Heq & H1 & H2).
        destruct s1 as [| d s1]; simpl in Heq.
        -- subst s2. now right.
        -- injection Heq as <- ->. left. eauto.
    + rewrite Hhead, inLang_Seq. split.
      * intros (s1 & s2 & -> & H1 & H2). exists (c :: s1), s2. auto.
      * intros (s1 & s2 & Heq & H1 & H2).
        destruct s1 as [| d s1]; simpl in Heq.
        -- apply nullable_spec in H1. congruence.
        -- injection Heq as <- ->. eauto.
  - rewrite mkAlt_spec, !inLang_Alt, IH1, IH2. reflexivity.
  - rewrite mkSeq_spec, inLang_Seq. split.
    + intros (s1 & s2 & -> & H1 & H2). apply IH in H1.
      change (c :: s1 ++ s2) with ((c :: s1) ++ s2). now constructor.
    + intros H. apply inLang_Star_cons in H as (s1 & s2 & -> & H1 & H2).
      apply IH in H1. eauto.
Qed.

(** [matchesAll] decides membership of the whole string. *)
Lemma matchesAll_spec s : forall r, matchesAll r s = true <-> inLang r s.
Proof.
  induction s as [| c s IH]; intros r; simpl.
  - apply nullable_spec.
  - rewrite IH. apply deriv_spec.
Qed.

(** [matchesPrefix] decides whether some prefix is in the language. *)
Lemma matchesPrefix_spec s : forall r,
  matchesPrefix r s = true <-> exists pre post, s = pre ++ post /\ inLang r pre.
Proof.
  induction s as [| c s IH]; intros r; simpl.
  - rewrite orb_false_r, nullable_spec. split.
    + intros H. now exists [], [].
    + intros (pre & post & Heq & H).
      symmetry in Heq. apply List.app_eq_nil in Heq as [-> _]. exact H.
  - rewrite orb_true_iff, nullable_spec, IH. split.
    + intros [H | (pre & post & -> & H)].
      * now exists [], (c :: s).
      * exists (c :: pre), post. split; [reflexivity | now apply deriv_spec].
    + intros (pre & post & Heq & H).
      destruct pre as [| d pre]; [now left |].
      simpl in Heq. injection Heq as <- ->.
      right. exists pre, post. split; [reflexivity | now apply deriv_spec].
Qed.

(** [test] decides whether some substring is in the language. *)
Lemma test_spec r s :
  test r s = true <-> exists pre mid post, s = pre ++ mid ++ post /\ inLang r mid.
Proof.
  induction s as [| c s IH]; simpl.
  - rewrite !orb_false_r, nullable_spec. split.
    + intros H. now exists [], [], [].
    + intros (pre & mid & post & Heq & H).
      symmetry in Heq. apply List.app_eq_nil in Heq as [_ Heq].
      apply List.app_eq_nil in Heq as [-> _]. exact H.
  - rewrite orb_true_iff, IH.
    pose proof (matchesPrefix_spec (c :: s) r) as Hprefix. simpl in Hprefix.
    rewrite Hprefix. split.
    + intros [(mid & post & Heq & H) | (pre & mid & post & -> & H)].
      * exists [], mid, post. auto.
      * exists (c :: pre), mid, post. auto.
    + intros (pre & mid & post & Heq & H).
      destruct pre as [| d pre]; simpl in Heq.
      * left. eauto.
      * injection Heq as <- ->. right. eauto.
Qed.

End Regex.

(** The three validators built on a pattern, in terms of its language. *)
Lemma isValidEmail_spec (email : jstring) :
  isValidEmail email = true <-> inLang emailRegex email.
Proof. apply matchesAll_spec. Qed.

Lemma isValidZipCode_spec (zipCode : jstring) :
  isValidZipCode zipCode = true <-> inLang zipRegex zipCode.
Proof. apply matchesAll_spec. Qed.

Lemma containsUrls_spec (text : jstring) :
  containsUrls text = true <->
  exists pre mid post, text = pre ++ mid ++ post /\ inLang urlRegex mid.
Proof. apply test_spec. Qed.

(* ===================================================================== *)
(** ** Properties of the rate limiter *)
(* ===================================================================== *)

Section RateLimiter.

Implicit Types (identifier : list N) (store : gmap (list N) RateLimitRecord).
Implicit Types (record : RateLimitRecord) (now windowMs maxRequests : Z).

(** The three ways through [checkRateLimit]. *)
Lemma checkRateLimit_first identifier maxRequests windowMs now store :
  store !! identifier = None ->
  checkRateLimit identifier maxRequests windowMs now store
  = (true, <[identifier := freshRecord now windowMs]> store).
Proof. intros H. unfold checkRateLimit. now rewrite H. Qed.

Lemma checkRateLimit_expired identifier maxRequests windowMs now store record :
  store !! identifier = Some record ->
  resetTime record < now ->
  checkRateLimit identifier maxRequests windowMs now store
  = (true, <[identifier := freshRecord now windowMs]> store).
Proof.
  intros H Hlt. unfold checkRateLimit. rewrite H.
  apply Z.ltb_lt in Hlt. now rewrite Hlt.
Qed.

Lemma checkRateLimit_counted identifier maxRequests windowMs now store record :
  store !! identifier = Some record ->
  now <= resetTime record ->
  count record < maxRequests ->
  checkRateLimit identifier maxRequests windowMs now store
  = (true, <[identifier := {| count := count record + 1;
                              resetTime := resetTime record |}]> store).
Proof.
  intros H Hw Hc. unfold checkRateLimit. rewrite H.
  destruct (Z.ltb_spec (resetTime record) now); [lia |].
  destruct (Z.leb_spec maxRequests (count record)); [lia | reflexivity].
Qed.

Lemma checkRateLimit_full identifier maxRequests windowMs now store record :
  store !! identifier = Some record ->
  now <= resetTime record ->
  maxRequests <= count record ->
  checkRateLimit identifier maxRequests windowMs now store = (false, store).
Proof.
  intros H Hw Hc. unfold checkRateLimit. rewrite H.
  destruct (Z.ltb_spec (resetTime record) now); [lia |].
  destruct (Z.leb_spec maxRequests (count record)); [reflexivity | lia].
Qed.

(** A denied call found a live record that is full, and changed nothing. *)
Lemma checkRateLimit_denied identifier maxRequests windowMs now store store' :
  checkRateLimit identifier maxRequests windowMs now store = (false, store') ->
  store' = store /\
  exists record, store !! identifier = Some record
                 /\ now <= resetTime record /\ maxRequests <= count record.
Proof.
  unfold checkRateLimit.
  destruct (store !! identifier) as [record |] eqn:Hrec; [| discriminate].
  destruct (Z.ltb_spec (resetTime record) now); [discriminate |].
  destruct (Z.leb_spec maxRequests (count record)); [| discriminate].
  intros [= <-]. split; [reflexivity |]. exists record. auto.
Qed.

Lemma checkRateLimit_keeps_range identifier maxRequests windowMs now store :
  1 <= maxRequests ->
  map_Forall (countInRange maxRequests) store ->
  map_Forall (countInRange maxRequests)
    (checkRateLimit identifier maxRequests windowMs now store).2.
Proof.
  intros Hmax Hinv. unfold checkRateLimit.
  destruct (store !! identifier) as [record |] eqn:Hrec; simpl.
  - destruct (Z.ltb_spec (resetTime record) now); simpl.
    + apply map_Forall_insert_2; [unfold countInRange; simpl; lia | exact Hinv].
    + destruct (Z.leb_spec maxRequests (count record)); simpl; [exact Hinv |].
      apply map_Forall_insert_2; [| exact Hinv].
      pose proof (Hinv _ _ Hrec) as Hr. unfold countInRange in *. simpl. lia.
  - apply map_Forall_insert_2; [unfold countInRange; simpl; lia | exact Hinv].
Qed.

Lemma checkRateLimitAll_keeps_range maxRequests reqs store :
  1 <= maxRequests ->
  map_Forall (countInRange maxRequests) store ->
  map_Forall (countInRange maxRequests) (checkRateLimitAll maxRequests reqs store).2.
Proof.
  intros Hmax. revert store.
  induction reqs as [| [[identifier windowMs] now] reqs IH]; intros store Hinv.
  - exact Hinv.
  - simpl.
    pose proof (checkRateLimit_keeps_range identifier maxRequests windowMs now store
                  Hmax Hinv) as Hstep.
    destruct (checkRateLimit identifier maxRequests windowMs now store)
      as [allowed store1].
    specialize (IH store1 Hstep).
    destruct (checkRateLimitAll maxRequests reqs store1) as [rest store2].
    exact IH.
Qed.

Lemma checkRateLimitAll_denied maxRequests reqs store :
  Forall (fun allowed => allowed = false) (checkRateLimitAll maxRequests reqs store).1 ->
  (checkRateLimitAll maxRequests reqs store).2 = store.
Proof.
  revert store.
  induction reqs as [| [[identifier windowMs] now] reqs IH]; intros store Hall.
  - reflexivity.
  - simpl in *.
    destruct (checkRateLimit identifier maxRequests windowMs now store)
      as [allowed store1] eqn:Hstep.
    specialize (IH store1).
    destruct (checkRateLimitAll maxRequests reqs store1) as [rest store2].
    simpl in *. inversion Hall as [| ? ? Hhead Hrest]; subst.
    apply checkRateLimit_denied in Hstep as [-> _]. auto.
Qed.

End RateLimiter.

(** C2.  With [maxRequests = 3] and [windowMs = 60000], for an identifier
    that has no record or an expired one at the first call (clock [t1]):
    the first call and two more calls made no later than the expiry
    [t1 + 60000] are allowed, a fourth call within the window is denied, and
    a call made after the expiry (clock [t5]) is allowed again and leaves
    the record with count 1 and expiry [t5 + 60000]. *)
Theorem checkRateLimit_three_per_window
    (identifier : list N) (store : gmap (list N) RateLimitRecord)
    (t1 t2 t3 t4 t5 : Z) :
  (store !! identifier = None
   \/ exists record, store !! identifier = Some record /\ resetTime record < t1) ->
  t2 <= t1 + 60000 -> t3 <= t1 + 60000 -> t4 <= t1 + 60000 ->
  t1 + 60000 < t5 ->
  exists store4 store5,
    checkRateLimitAll 3
      [(identifier, 60000, t1); (identifier, 60000, t2);
       (identifier, 60000, t3); (identifier, 60000, t4)] store
    = ([true; true; true; false], store4)
    /\ store4 !! identifier = Some {| count := 3; resetTime := t1 + 60000 |}
    /\ checkRateLimit identifier 3 60000 t5 store4 = (true, store5)
    /\ store5 !! identifier = Some {| count := 1; resetTime := t5 + 60000 |}.
Proof.
  intros Hstart H2 H3 H4 H5.
  set (s1 := <[identifier := freshRecord t1 60000]> store).
  assert (Hcall1 : checkRateLimit identifier 3 60000 t1 store = (true, s1)).
  { destruct Hstart as [Hnone | (record & Hsome & Hold)].
    - now apply checkRateLimit_first.
    - now apply checkRateLimit_expired with record. }
  assert (Hs1 : s1 !! identifier = Some (freshRecord t1 60000))
    by apply lookup_insert_eq.
  set (s2 := <[identifier := {| count := 2; resetTime := t1 + 60000 |}]> s1).
  assert (Hcall2 : checkRateLimit identifier 3 60000 t2 s1 = (true, s2)).
  { rewrite (checkRateLimit_counted _ _ _ _ _ _ Hs1); simpl; [reflexivity | lia | lia]. }
  assert (Hs2 : s2 !! identifier = Some {| count := 2; resetTime := t1 + 60000 |})
    by apply lookup_insert_eq.
  set (s3 := <[identifier := {| count := 3; resetTime := t1 + 60000 |}]> s2).
  assert (Hcall3 : checkRateLimit identifier 3 60000 t3 s2 = (true, s3)).
  { rewrite (checkRateLimit_counted _ _ _ _ _ _ Hs2); simpl; [reflexivity | lia | lia]. }
  assert (Hs3 : s3 !! identifier = Some {| count := 3; resetTime := t1 + 60000 |})
    by apply lookup_insert_eq.
  assert (Hcall4 : checkRateLimit identifier 3 60000 t4 s3 = (false, s3)).
  { apply (checkRateLimit_full _ _ _ _ _ _ Hs3); simpl; lia. }
  exists s3, (<[identifier := freshRecord t5 60000]> s3).
  split; [| split; [exact Hs3 | split]].
  - simpl. rewrite Hcall1, Hcall2, Hcall3, Hcall4. reflexivity.
  - apply (checkRateLimit_expired _ _ _ _ _ _ Hs3). simpl. lia.
  - apply lookup_insert_eq.
Qed.

Lemma checkRateLimit_three_per_window_witness :
  exists store4 store5,
    checkRateLimitAll 3
      [(lit "203.0.113.7", 60000, 1000); (lit "203.0.113.7", 60000, 2000);
       (lit "203.0.113.7", 60000, 3000); (lit "203.0.113.7", 60000, 61000)] ∅
    = ([true; true; true; false], store4)
    /\ store4 !! lit "203.0.113.7" = Some {| count := 3; resetTime := 1000 + 60000 |}
    /\ checkRateLimit (lit "203.0.113.7") 3 60000 61001 store4 = (true, store5)
    /\ store5 !! lit "203.0.113.7" = Some {| count := 1; resetTime := 61001 + 60000 |}.
Proof.
  apply (checkRateLimit_three_per_window (lit "203.0.113.7") ∅ 1000 2000 3000 61000 61001).
  - left. reflexivity.
  - lia.
  - lia.
  - lia.
  - lia.
Defined.

(** C9.  After any sequence of [checkRateLimit] calls with [maxRequests = 3]
    on the initially empty store (any identifiers, windows and clock values,
    allowed or denied), every record of the store has a count between 1 and
    3. *)
Theorem checkRateLimit_count_between_1_and_3 (reqs : list (list N * Z * Z)) :
  map_Forall (fun _ record => 1 <= count record <= 3)
    (checkRateLimitAll 3 reqs ∅).2.
Proof.
  apply (checkRateLimitAll_keeps_range 3 reqs ∅); [lia |].
  apply map_Forall_empty.
Qed.

(** C10.  A call of [checkRateLimit] that returns [false] leaves the whole
    store as it was, so the record of the identifier keeps its count and its
    reset time; the same holds after any number of denied calls, and a call
    made after the reset time of the record is then allowed and starts a new
    window. *)
Theorem checkRateLimit_denied_changes_nothing
    (maxRequests : Z) (store : gmap (list N) RateLimitRecord) :
  (forall identifier windowMs now store',
      checkRateLimit identifier maxRequests windowMs now store = (false, store') ->
      store' = store /\ store' !! identifier = store !! identifier)
  /\
  (forall reqs identifier record windowMs now,
      Forall (fun allowed => allowed = false)
        (checkRateLimitAll maxRequests reqs store).1 ->
      store !! identifier = Some record ->
      resetTime record < now ->
      (checkRateLimitAll maxRequests reqs store).2 = store
      /\ checkRateLimit identifier maxRequests windowMs now
           (checkRateLimitAll maxRequests reqs store).2
         = (true, <[identifier := {| count := 1; resetTime := now + windowMs |}]> store)).
Proof.
  split.
  - intros identifier windowMs now store' Hdenied.
    apply checkRateLimit_denied in Hdenied as [-> _]. auto.
  - intros reqs identifier record windowMs now Hall Hrec Hlate.
    rewrite (checkRateLimitAll_denied _ _ _ Hall).
    split; [reflexivity |].
    now apply checkRateLimit_expired with record.
Qed.

Lemma checkRateLimit_denied_changes_nothing_witness :
  let ip := lit "203.0.113.7" in
  let full := {| count := 3; resetTime := 61000 |} in
  let store : gmap (list N) RateLimitRecord := {[ ip := full ]} in
  let denied := [(ip, 60000, 2000); (ip, 60000, 3000)] in
  (store = store /\ store !! ip = store !! ip)
  /\ (checkRateLimitAll 3 denied store).2 = store
  /\ checkRateLimit ip 3 60000 61001 (checkRateLimitAll 3 denied store).2
     = (true, <[ip := {| count := 1; resetTime := 61001 + 60000 |}]> store).
Proof.
  intros ip full store denied.
  split.
  - apply (proj1 (checkRateLimit_denied_changes_nothing 3 store) ip 60000 2000 store).
    apply (checkRateLimit_full ip 3 60000 2000 store full).
    + apply lookup_singleton_eq.
    + simpl. lia.
    + simpl. lia.
  - apply (proj2 (checkRateLimit_denied_changes_nothing 3 store)
             denied ip full 60000 61001).
    + vm_compute. repeat constructor.
    + apply lookup_singleton_eq.
    + simpl. lia.
Defined.

(* ===================================================================== *)
(** ** Properties of the validators and filters *)
(* ===================================================================== *)

Lemma replace_nondigits_length (s : jstring) :
  length (replaceClassG (fun c => negb (isDigit c)) [] s) = digitCount s.
Proof.
  induction s as [| c s IH]; [reflexivity |].
  unfold replaceClassG in *. simpl.
  destruct (isDigit c); simpl; rewrite ?IH; reflexivity.
Qed.

(** C8.  [isValidPhone(phone)] is true exactly when [phone] has at least 10
    digits; it is true of "(316) 684-4400" and false of "12345". *)
Theorem isValidPhone_ten_digits :
  (forall phone : jstring, isValidPhone phone = true <-> (10 <= digitCount phone)%nat)
  /\ isValidPhone (lit "(316) 684-4400") = true
  /\ isValidPhone (lit "12345") = false.
Proof.
  split; [| split; reflexivity].
  intros phone. unfold isValidPhone.
  rewrite replace_nondigits_length. apply Nat.leb_le.
Qed.

Lemma vowel_matches_length (text : jstring) :
  length (default [] (matchClassG isVowel text)) = length (List.filter isVowel text).
Proof.
  unfold matchClassG.
  destruct (List.filter isVowel text) as [| c cs]; [reflexivity |].
  simpl. now rewrite length_map.
Qed.

Lemma filter_split_length {A} (p : A -> bool) (l : list A) :
  (length (List.filter p l) + length (List.filter (fun x => negb (p x)) l)
   = length l)%nat.
Proof.
  induction l as [| x l IH]; [reflexivity |].
  simpl. destruct (p x); simpl; lia.
Qed.

Lemma no_vowel_filter (text : jstring) :
  length (List.filter isVowel text) = 0%nat <-> noVowel text.
Proof.
  unfold noVowel. induction text as [| c text IH]; simpl.
  - split; [constructor | reflexivity].
  - destruct (isVowel c) eqn:Hc; simpl.
    + split; [discriminate |]. intros H. inversion H; congruence.
    + rewrite IH. split; [now constructor |]. intros H. now inversion H.
Qed.

Lemma takeWhile_two (c : N) (rest : jstring) :
  (2 <= length (takeWhile (N.eqb c) rest))%nat <->
  exists rest', rest = c :: c :: rest'.
Proof.
  split.
  - destruct rest as [| a [| b rest']]; simpl; try lia.
    + destruct (N.eqb_spec c a); simpl; lia.
    + destruct (N.eqb_spec c a); simpl; [| lia].
      destruct (N.eqb_spec c b); simpl; [| lia].
      subst. eauto.
  - intros [rest' ->]. simpl. rewrite N.eqb_refl. simpl. lia.
Qed.

Lemma matchRepeatAt_spec (c : N) (rest : jstring) :
  let here := isLineTerminator c = false /\ exists rest', rest = c :: c :: rest' in
  match matchRepeatAt (c :: rest) with
  | Some _ => here
  | None => ~ here
  end.
Proof.
  unfold matchRepeatAt.
  destruct (isLineTerminator c).
  - intros [Hc _]. discriminate.
  - destruct (Nat.leb_spec 2 (length (takeWhile (N.eqb c) rest))) as [Hrun | Hrun].
    + split; [reflexivity | now apply takeWhile_two].
    + intros [_ Htwo]. apply takeWhile_two in Htwo. lia.
Qed.

Lemma hasTripleOnLine_cons (c : N) (rest : jstring) :
  hasTripleOnLine (c :: rest) <->
  (isLineTerminator c = false /\ exists rest', rest = c :: c :: rest')
  \/ hasTripleOnLine rest.
Proof.
  unfold hasTripleOnLine. split.
  - intros (i & d & Hd & H0 & H1 & H2).
    destruct i as [| i].
    + left. simpl in H0. injection H0 as ->.
      destruct rest as [| a [| b rest']]; simpl in *; try discriminate.
      injection H1 as ->. injection H2 as ->. eauto.
    + right. exists i, d. auto.
  - intros [[Hc [rest' ->]] | (i & d & Hd & H0 & H1 & H2)].
    + exists 0%nat, c. auto.
    + exists (S i), d. auto.
Qed.

Lemma scanRepeat_spec (text : jstring) :
  match scanRepeat 0 text with
  | [] => ~ hasTripleOnLine text
  | _ :: _ => hasTripleOnLine text
  end.
Proof.
  induction text as [| c rest IH].
  - simpl. intros (i & d & _ & H0 & _). destruct i; discriminate.
  - change (scanRepeat 0 (c :: rest))
      with (match matchRepeatAt (c :: rest) with
            | Some m => m :: scanRepeat (length m - 1) rest
            | None => scanRepeat 0 rest
            end).
    pose proof (matchRepeatAt_spec c rest) as Hhere. cbv zeta in Hhere.
    destruct (matchRepeatAt (c :: rest)) as [m |].
    + apply hasTripleOnLine_cons. now left.
    + destruct (scanRepeat 0 rest) as [| m ms].
      * rewrite hasTripleOnLine_cons. tauto.
      * apply hasTripleOnLine_cons. now right.
Qed.

Lemma matchRepeatG_found (text : jstring) :
  match matchRepeatG text with
  | Some ms => if (0 <? length ms)%nat then true else false
  | None => false
  end = true <-> hasTripleOnLine text.
Proof.
  unfold matchRepeatG.
  pose proof (scanRepeat_spec text) as Hscan.
  destruct (scanRepeat 0 text) as [| m ms]; simpl.
  - split; [discriminate | intros H; now exfalso].
  - split; [now intros _ | reflexivity].
Qed.

Lemma consonant_count (text : jstring) :
  (length text - length (default [] (matchClassG isVowel text)))%nat
  = nonVowelCount text.
Proof.
  rewrite vowel_matches_length. unfold nonVowelCount.
  pose proof (filter_split_length isVowel text). lia.
Qed.

Lemma ratio_test (q : Q) : negb (Qle_bool q (8 # 10)) = true <-> (8 # 10 < q)%Q.
Proof.
  rewrite negb_true_iff. split.
  - intros Hle. apply Qnot_le_lt. intros H. apply Qle_bool_iff in H. congruence.
  - intros Hlt. destruct (Qle_bool q (8 # 10)) eqn:Hle; [| reflexivity].
    apply Qle_bool_iff in Hle. exfalso. exact (Qlt_not_le _ _ Hlt Hle).
Qed.

(** C4, as amended.  [isGibberish(text)] is true exactly when [text] has at
    least 2 code units and has no vowel, or more than 0.8 of its code units
    are not vowels, or three equal code units follow each other that are not
    a line terminator (LF, CR, U+2028, U+2029); it is false of every string
    shorter than 2. *)
Theorem isGibberish_iff :
  (forall text : jstring,
      isGibberish text = true <->
      (2 <= length text)%nat
      /\ (noVowel text \/ mostlyConsonants text \/ hasTripleOnLine text))
  /\ (forall text : jstring, (length text < 2)%nat -> isGibberish text = false).
Proof.
  split.
  - intros text. unfold isGibberish.
    destruct (Nat.ltb_spec (length text) 2) as [Hshort | Hlong].
    + rewrite orb_true_r. split; [discriminate | lia].
    + assert (Htruthy : truthy (Some text) = true)
        by (destruct text; [simpl in Hlong; lia | reflexivity]).
      rewrite Htruthy. cbn [negb orb]. cbv zeta.
      rewrite consonant_count.
      destruct (Nat.eqb_spec (length (default [] (matchClassG isVowel text))) 0)
        as [Hzero | Hsome].
      * cbn [orb]. split; [| reflexivity]. intros _. split; [exact Hlong |].
        left. apply no_vowel_filter. now rewrite <- vowel_matches_length.
      * cbn [orb].
        destruct (negb (Qle_bool _ (8 # 10))) eqn:Hratio.
        -- split; [| reflexivity]. intros _. split; [exact Hlong |].
           right. left. now apply ratio_test.
        -- rewrite matchRepeatG_found. split.
           ++ intros Hrun. split; [exact Hlong | auto].
           ++ intros [_ [Hnone | [Hmost | Hrun]]].
              ** apply no_vowel_filter in Hnone.
                 rewrite <- vowel_matches_length in Hnone. contradiction.
              ** apply ratio_test in Hmost. unfold mostlyConsonants in Hmost.
                 congruence.
              ** exact Hrun.
  - intros text Hshort. unfold isGibberish.
    apply Nat.ltb_lt in Hshort. rewrite Hshort. now rewrite orb_true_r.
Qed.

Lemma isGibberish_iff_witness :
  isGibberish (lit "bcdfg") = true
  /\ isGibberish (lit "Mississsippi") = true
  /\ isGibberish (lit "J") = false.
Proof.
  split; [| split].
  - apply (proj1 isGibberish_iff (lit "bcdfg")).
    split; [simpl; lia |]. left. repeat constructor.
  - apply (proj1 isGibberish_iff (lit "Mississsippi")).
    split; [simpl; lia |]. right. right.
    exists 5%nat, 115%N. repeat split; reflexivity.
  - apply (proj2 isGibberish_iff (lit "J")). simpl. lia.
Defined.

(** C4 as the specification words it fails on "aa" followed by three line
    feeds: two of five code units are vowels, three equal code units follow
    each other, and [isGibberish] answers [false], since [.] does not match
    a line feed. *)
Lemma isGibberish_line_feeds :
  ~ (isGibberish (lit "aa" ++ [10; 10; 10]%N) = true
     <-> gibberishAsSpecified (lit "aa" ++ [10; 10; 10]%N)).
Proof.
  intros [_ Hback].
  assert (Hfalse : isGibberish (lit "aa" ++ [10; 10; 10]%N) = false) by reflexivity.
  rewrite Hback in Hfalse; [discriminate |].
  split; [simpl; lia |]. right. right.
  exists 2%nat, 10%N. repeat split; reflexivity.
Qed.

(* ===================================================================== *)
(** ** Properties of the handler *)
(* ===================================================================== *)

Lemma dropWhile_nil {A} (p : A -> bool) (l : list A) :
  dropWhile p l = [] <-> Forall (fun x => p x = true) l.
Proof.
  induction l as [| x l IH]; simpl.
  - split; [constructor | reflexivity].
  - destruct (p x) eqn:Hx.
    + rewrite IH. split; [now constructor | intros H; now inversion H].
    + split; [discriminate | intros H; inversion H; congruence].
Qed.

Lemma dropWhile_head {A} (p : A -> bool) (l : list A) x rest :
  dropWhile p l = x :: rest -> p x = false.
Proof.
  induction l as [| y l IH]; simpl; [discriminate |].
  destruct (p y) eqn:Hy; [exact IH |]. now intros [= <- _].
Qed.

Lemma trim_nil (s : jstring) : trim s = [] <-> blank s.
Proof.
  unfold trim, blank. split.
  - intros H. apply (f_equal (@List.rev N)) in H.
    rewrite List.rev_involutive in H. simpl in H.
    apply dropWhile_nil in H.
    destruct (dropWhile isWhiteSpace s) as [| x rest] eqn:Hdrop.
    + now apply dropWhile_nil.
    + apply dropWhile_head in Hdrop.
      apply List.Forall_rev in H. rewrite List.rev_involutive in H.
      inversion H; congruence.
  - intros H. apply dropWhile_nil in H. rewrite H. reflexivity.
Qed.

Lemma strictEq_false (s t : jstring) : strictEq s t = false <-> s <> t.
Proof. unfold strictEq. apply bool_decide_eq_false. Qed.

Lemma includes_false (l : list jstring) (s : jstring) :
  includes l s = false <-> ~ In s l.
Proof.
  unfold includes. induction l as [| t l IH]; simpl.
  - tauto.
  - rewrite orb_false_iff, IH, strictEq_false. split.
    + intros [Hne Hnot] [Heq | Hin]; [congruence | tauto].
    + intros Hnot. split; [intros ->; tauto | tauto].
Qed.

Lemma filled_truthy (value : option jstring) (limit : nat) :
  filled value limit ->
  truthy value = true
  /\ strictEq (trim (String_ value)) [] = false
  /\ (limit <? length (String_ value))%nat = false.
Proof.
  intros (v & -> & Hblank & Hlen). simpl.
  split; [| split].
  - destruct v; [exfalso; apply Hblank; constructor | reflexivity].
  - apply strictEq_false. now rewrite trim_nil.
  - now apply Nat.ltb_ge.
Qed.

Lemma honeypot_passes (formData : ContactFormData) :
  (forall w, website formData = Some w -> blank w) ->
  truthy (website formData)
  && negb (strictEq (trim (String_ (website formData))) []) = false.
Proof.
  intros Hblank. destruct (website formData) as [w |]; [| reflexivity].
  cbn [String_]. specialize (Hblank w eq_refl). apply trim_nil in Hblank.
  rewrite Hblank. unfold strictEq. rewrite bool_decide_eq_true_2 by reflexivity.
  apply andb_false_r.
Qed.

Lemma blocklist_passes (formData : ContactFormData) :
  (forall mail, email formData = Some mail -> ~ In (toLowerCase mail) BLOCKED_EMAILS) ->
  truthy (email formData)
  && includes BLOCKED_EMAILS (toLowerCase (String_ (email formData))) = false.
Proof.
  intros Hnot. destruct (email formData) as [mail |]; [| reflexivity].
  cbn [String_]. specialize (Hnot mail eq_refl). apply includes_false in Hnot.
  rewrite Hnot. apply andb_false_r.
Qed.

Lemma underRateLimit_allowed (store : gmap (list N) RateLimitRecord)
    (identifier : list N) (now : Z) :
  underRateLimit store identifier now ->
  (checkRateLimit identifier 3 60000 now store).1 = true.
Proof.
  unfold underRateLimit, checkRateLimit.
  destruct (store !! identifier) as [record |]; [| reflexivity].
  destruct (Z.ltb_spec (resetTime record) now); [reflexivity |].
  intros [Hlate | Hroom]; [lia |].
  destruct (Z.leb_spec 3 (count record)); [lia | reflexivity].
Qed.

Lemma checkRequired_filled (field : string) (fields : list string)
    (formData : ContactFormData) (limit : nat) :
  filled (getField field formData) limit ->
  checkRequired (field :: fields) formData = checkRequired fields formData.
Proof.
  intros Hfilled. apply filled_truthy in Hfilled as (Htruthy & Htrim & _).
  cbn [checkRequired]. now rewrite Htruthy, Htrim.
Qed.

Lemma checkLengths_filled (field : string) (limit : nat)
    (limits : list (string * nat)) (formData : ContactFormData) :
  filled (getField field formData) limit ->
  checkLengths ((field, limit) :: limits) formData = checkLengths limits formData.
Proof.
  intros Hfilled. apply filled_truthy in Hfilled as (_ & _ & Hlen).
  cbn [checkLengths]. rewrite Hlen. now rewrite andb_false_r.
Qed.

(** After the loop over [requiredFields] the six values are strings: the
    second branch of [checkFormats] is never taken. *)
Lemma checkRequired_passed (formData : ContactFormData) :
  checkRequired requiredFields formData = None ->
  exists first last mail tel zip kind,
    firstName formData = Some first /\ lastName formData = Some last
    /\ email formData = Some mail /\ phone formData = Some tel
    /\ zipCode formData = Some zip /\ caseType formData = Some kind.
Proof.
  unfold requiredFields. cbn [checkRequired].
  change (getField "firstName" formData) with (firstName formData).
  change (getField "lastName" formData) with (lastName formData).
  change (getField "email" formData) with (email formData).
  change (getField "phone" formData) with (phone formData).
  change (getField "zipCode" formData) with (zipCode formData).
  change (getField "caseType" formData) with (caseType formData).
  destruct (firstName formData) as [first |]; [| discriminate].
  destruct (lastName formData) as [last |];
    [| destruct (_ || _); discriminate].
  destruct (email formData) as [mail |];
    [| repeat (destruct (_ || _); try discriminate)].
  destruct (phone formData) as [tel |];
    [| repeat (destruct (_ || _); try discriminate)].
  destruct (zipCode formData) as [zip |];
    [| repeat (destruct (_ || _); try discriminate)].
  destruct (caseType formData) as [kind |];
    [| repeat (destruct (_ || _); try discriminate)].
  intros _. now exists first, last, mail, tel, zip, kind.
Qed.

Lemma checkRequired_status (fields : list string) (formData : ContactFormData)
    (answer : HttpResponseInit) :
  checkRequired fields formData = Some answer -> status answer = 400.
Proof.
  induction fields as [| field fields IH]; cbn [checkRequired]; [discriminate |].
  destruct (_ || _); [| exact IH]. now intros [= <-].
Qed.

Lemma checkLengths_status (limits : list (string * nat)) (formData : ContactFormData)
    (answer : HttpResponseInit) :
  checkLengths limits formData = Some answer -> status answer = 400.
Proof.
  induction limits as [| [field maxLength] limits IH]; cbn [checkLengths];
    [discriminate |].
  destruct (_ && _); [| exact IH]. now intros [= <-].
Qed.

(** Every answer of the field checks is a 400: the branch of [checkFormats]
    that stands for a missing required value is not taken. *)
Lemma checkFields_status (formData : ContactFormData) (answer : HttpResponseInit) :
  checkFields formData = Some answer -> status answer = 400.
Proof.
  unfold checkFields.
  destruct (checkRequired requiredFields formData) as [early |] eqn:Hrequired.
  - intros [= <-]. now apply checkRequired_status in Hrequired.
  - destruct (checkLengths maxLengths formData) as [early |] eqn:Hlengths.
    + intros [= <-]. now apply checkLengths_status in Hlengths.
    + apply checkRequired_passed in Hrequired
        as (first & last & mail & tel & zip & kind & H1 & H2 & H3 & H4 & H5 & _).
      unfold checkFormats. rewrite H1, H2, H3, H4, H5.
      repeat (destruct (negb _); [now intros [= <-] |]).
      destruct (_ || _); [now intros [= <-] |].
      destruct (_ && _); [now intros [= <-] | discriminate].
Qed.

Section Passing.

Context {env : Environment} {request : HttpRequest}
        {store : gmap (list N) RateLimitRecord} {formData : ContactFormData}.
Hypothesis passes : PassesChecks env request store formData.

Lemma checkFields_passes : checkFields formData = descriptionVerdict formData.
Proof.
  pose proof (pc_firstName _ _ _ _ passes) as Hfirst.
  pose proof (pc_lastName _ _ _ _ passes) as Hlast.
  pose proof (pc_email _ _ _ _ passes) as Hmail.
  pose proof (pc_phone _ _ _ _ passes) as Htel.
  pose proof (pc_zipCode _ _ _ _ passes) as Hzip.
  pose proof (pc_caseType _ _ _ _ passes) as Hkind.
  unfold checkFields, requiredFields, maxLengths.
  rewrite (checkRequired_filled "firstName" _ formData 50 Hfirst).
  rewrite (checkRequired_filled "lastName" _ formData 50 Hlast).
  rewrite (checkRequired_filled "email" _ formData 100 Hmail).
  rewrite (checkRequired_filled "phone" _ formData 20 Htel).
  rewrite (checkRequired_filled "zipCode" _ formData 10 Hzip).
  rewrite (checkRequired_filled "caseType" _ formData 50 Hkind).
  cbn [checkRequired].
  rewrite (checkLengths_filled "firstName" 50 _ formData Hfirst).
  rewrite (checkLengths_filled "lastName" 50 _ formData Hlast).
  rewrite (checkLengths_filled "email" 100 _ formData Hmail).
  rewrite (checkLengths_filled "phone" 20 _ formData Htel).
  rewrite (checkLengths_filled "zipCode" 10 _ formData Hzip).
  rewrite (checkLengths_filled "caseType" 50 _ formData Hkind).
  cbn [checkLengths].
  change (getField "description" formData) with (description formData).
  unfold descriptionVerdict.
  destruct (truthy (description formData)
            && (1200 <? length (String_ (description formData)))%nat);
    [reflexivity |].
  unfold checkFormats.
  destruct Hfirst as (first & Hfirst & _).
  destruct Hlast as (last & Hlast & _).
  destruct Hmail as (mail & Hmail & _).
  destruct Htel as (tel & Htel & _).
  destruct Hzip as (zip & Hzip & _).
  rewrite Hfirst, Hlast, Hmail, Htel, Hzip.
  rewrite (pc_email_format _ _ _ _ passes _ Hmail),
    (pc_phone_format _ _ _ _ passes _ Htel),
    (pc_zip_format _ _ _ _ passes _ Hzip),
    (pc_first_name _ _ _ _ passes _ Hfirst),
    (pc_last_name _ _ _ _ passes _ Hlast).
  reflexivity.
Qed.

Lemma validateSubmission_passes :
  validateSubmission formData (getClientIp request) (Date_now env) store
  = (descriptionVerdict formData,
     (checkRateLimit (getClientIp request) 3 60000 (Date_now env) store).2).
Proof.
  unfold validateSubmission.
  rewrite (honeypot_passes _ (pc_honeypot _ _ _ _ passes)).
  rewrite (blocklist_passes _ (pc_blocklist _ _ _ _ passes)).
  pose proof (underRateLimit_allowed _ _ _ (pc_rate _ _ _ _ passes)) as Hallowed.
  destruct (checkRateLimit (getClientIp request) 3 60000 (Date_now env) store)
    as [allowed store1].
  simpl in Hallowed. subst allowed. cbn [negb snd].
  now rewrite checkFields_passes.
Qed.


End Passing.

Lemma contactForm_post (penv : ProcessEnv) (env : Environment)
    (request : HttpRequest) (store : gmap (list N) RateLimitRecord)
    (formData : ContactFormData) :
  method request = lit "POST" ->
  body request = BodyObject formData ->
  contactForm penv env request store
  = match validateSubmission formData (getClientIp request) (Date_now env) store with
    | (Some rejected, store') =>
        {| response := rejected; storeAfter := store'; calls := [] |}
    | (None, store') =>
        match verifyCaptcha penv env formData with
        | (Some rejected, sent) =>
            {| response := rejected; storeAfter := store'; calls := sent |}
        | (None, sent) =>
            let '(answer, sent') := sendEmail penv env formData (getClientIp request) in
            {| response := answer; storeAfter := store'; calls := sent ++ sent' |}
        end
    end.
Proof.
  intros Hmethod Hbody. unfold contactForm. rewrite Hmethod, Hbody.
  reflexivity.
Qed.

Lemma sendEmail_status (penv : ProcessEnv) (env : Environment)
    (formData : ContactFormData) (clientIp : jstring) :
  status (sendEmail penv env formData clientIp).1 = 500
  \/ status (sendEmail penv env formData clientIp).1 = 200.
Proof.
  unfold sendEmail.
  destruct (negb (truthy (CONNECTION_STRING penv))); [now left |].
  destruct (negb (newEmailClient env _)); [now left |].
  destruct (beginSend env _); [now right | now left].
Qed.

Lemma sendEmail_no_fetch (penv : ProcessEnv) (env : Environment)
    (formData : ContactFormData) (clientIp : jstring) :
  forall url requestBody,
    ~ In (Fetch url requestBody) (sendEmail penv env formData clientIp).2.
Proof.
  intros url requestBody. unfold sendEmail.
  destruct (negb (truthy (CONNECTION_STRING penv))); [simpl; tauto |].
  destruct (negb (newEmailClient env _)); [simpl; tauto |].
  destruct (beginSend env _); simpl; intros [H | []]; discriminate.
Qed.

Lemma exists_not_blank (w : jstring) :
  Exists (fun c => isWhiteSpace c = false) w -> ~ blank w.
Proof.
  unfold blank. intros Hex Hall.
  apply List.Exists_exists in Hex as (c & Hin & Hc).
  rewrite List.Forall_forall in Hall. specialize (Hall c Hin). congruence.
Qed.

(** C3.  When the honeypot field [website] of a parsed submission holds a
    code unit that is not whitespace (it is non-empty and not
    whitespace-only), the handler answers 400 "Spam detected" whatever the
    other fields, the configuration, the rate-limit store and the
    collaborators are: the store is left as it was (no rate-limit check) and
    no outbound call is made (no captcha verification, no dispatch). *)
Theorem honeypot_rejected_first (penv : ProcessEnv) (env : Environment)
    (request : HttpRequest) (store : gmap (list N) RateLimitRecord)
    (formData : ContactFormData) (w : jstring) :
  method request = lit "POST" ->
  body request = BodyObject formData ->
  website formData = Some w ->
  Exists (fun c => isWhiteSpace c = false) w ->
  contactForm penv env request store
  = {| response := spamDetected; storeAfter := store; calls := [] |}
  /\ status spamDetected = 400.
Proof.
  intros Hmethod Hbody Hsite Hw.
  split; [| reflexivity].
  rewrite (contactForm_post _ _ _ _ _ Hmethod Hbody).
  unfold validateSubmission. rewrite Hsite. cbn [String_].
  apply exists_not_blank in Hw.
  assert (Htruthy : truthy (Some w) = true).
  { destruct w; [exfalso; apply Hw; constructor | reflexivity]. }
  assert (Htrim : strictEq (trim w) [] = false).
  { apply strictEq_false. now rewrite trim_nil. }
  rewrite Htruthy, Htrim. reflexivity.
Qed.

Ltac solve_filled :=
  eexists; split; [reflexivity |];
  split; [rewrite <- trim_nil; vm_compute; discriminate | vm_compute; lia].

Lemma sampleForm_passes (env : Environment) (about token : option jstring) :
  PassesChecks env
    (sampleRequest (sampleForm about token None)) ∅ (sampleForm about token None).
Proof.
  constructor; try solve_filled; try reflexivity.
  - intros w [=].
  - intros mail [= <-]. apply includes_false. reflexivity.
  - intros mail [= <-]. reflexivity.
  - intros tel [= <-]. reflexivity.
  - intros zip [= <-]. reflexivity.
  - intros name [= <-]. reflexivity.
  - intros name [= <-]. reflexivity.
Qed.

Lemma honeypot_rejected_first_witness :
  let formData :=
    {| firstName := None; lastName := None; email := None; phone := None;
       zipCode := None; caseType := None; description := None;
       recaptchaToken := None; website := Some (lit "http://spam.biz") |} in
  contactForm unconfiguredProcessEnv (sampleEnvironment (9 # 10) (SendDone []))
    (sampleRequest formData) ∅
  = {| response := spamDetected; storeAfter := ∅; calls := [] |}
  /\ status spamDetected = 400.
Proof.
  intros formData.
  apply (honeypot_rejected_first unconfiguredProcessEnv
           (sampleEnvironment (9 # 10) (SendDone []))
           (sampleRequest formData) ∅ formData (lit "http://spam.biz")).
  - reflexivity.
  - reflexivity.
  - reflexivity.
  - left. reflexivity.
Defined.

(** C5.  When a submission passes every earlier check and its description,
    of at most 1200 code units, contains a URL-like token, the handler
    answers 400 with the error "URLs are not allowed in the description"
    and makes no outbound call, in particular no dispatch; "Check out
    http://example.com" contains such a token. *)
Theorem description_with_url_rejected (penv : ProcessEnv) (env : Environment)
    (request : HttpRequest) (store : gmap (list N) RateLimitRecord)
    (formData : ContactFormData) (d : jstring) :
  PassesChecks env request store formData ->
  description formData = Some d ->
  (length d <= 1200)%nat ->
  containsUrls d = true ->
  response (contactForm penv env request store) = urlsNotAllowed
  /\ status urlsNotAllowed = 400
  /\ calls (contactForm penv env request store) = []
  /\ containsUrls (lit "Check out http://example.com") = true.
Proof.
  intros Hpasses Hdesc Hlen Hurl.
  rewrite (contactForm_post _ _ _ _ _ (pc_method _ _ _ _ Hpasses)
             (pc_body _ _ _ _ Hpasses)).
  rewrite (validateSubmission_passes Hpasses).
  unfold descriptionVerdict. rewrite Hdesc. cbn [String_].
  apply Nat.ltb_ge in Hlen. rewrite Hlen, Hurl.
  assert (Htruthy : truthy (Some d) = true) by (destruct d; [discriminate | reflexivity]).
  rewrite Htruthy. cbn [andb].
  repeat split; reflexivity.
Qed.

Lemma description_with_url_rejected_witness :
  let formData := sampleForm (Some (lit "Check out http://example.com")) None None in
  let out :=
    contactForm sampleProcessEnv (sampleEnvironment (9 # 10) (SendDone []))
      (sampleRequest formData) ∅ in
  response out = urlsNotAllowed
  /\ status urlsNotAllowed = 400
  /\ calls out = []
  /\ containsUrls (lit "Check out http://example.com") = true.
Proof.
  intros formData out.
  apply (description_with_url_rejected sampleProcessEnv
           (sampleEnvironment (9 # 10) (SendDone []))
           (sampleRequest formData) ∅ formData
           (lit "Check out http://example.com")).
  - apply sampleForm_passes.
  - reflexivity.
  - vm_compute. lia.
  - reflexivity.
Defined.

(** C6.  For a submission that reaches the captcha step: if it carries a
    captcha token (a non-empty string) while the captcha secret is not
    configured (absent or empty), the handler answers 500 "reCAPTCHA not
    configured" and makes no outbound call; if it carries no token, no
    verification request is made and the answer and the outbound calls are
    those of the dispatch step. *)
Theorem captcha_needs_secret_or_is_skipped (penv : ProcessEnv) (env : Environment)
    (request : HttpRequest) (store store' : gmap (list N) RateLimitRecord)
    (formData : ContactFormData) :
  reachesCaptchaStep env request store formData store' ->
  let out := contactForm penv env request store in
  (forall token,
      recaptchaToken formData = Some token -> token <> [] ->
      truthy (RECAPTCHA_SECRET_KEY penv) = false ->
      out = {| response := recaptchaNotConfigured; storeAfter := store'; calls := [] |}
      /\ status recaptchaNotConfigured = 500)
  /\ (truthy (recaptchaToken formData) = false ->
      out = {| response := (sendEmail penv env formData (getClientIp request)).1;
               storeAfter := store';
               calls := (sendEmail penv env formData (getClientIp request)).2 |}
      /\ forall url requestBody, ~ In (Fetch url requestBody) (calls out)).
Proof.
  intros (Hmethod & Hbody & Hvalid) out. subst out.
  rewrite (contactForm_post _ _ _ _ _ Hmethod Hbody), Hvalid.
  unfold verifyCaptcha. split.
  - intros token Htoken Hnonempty Hsecret.
    rewrite Htoken, Hsecret.
    destruct token; [contradiction |]. split; reflexivity.
  - intros Hnone. rewrite Hnone.
    pose proof (sendEmail_no_fetch penv env formData (getClientIp request)) as Hnofetch.
    destruct (sendEmail penv env formData (getClientIp request)) as [answer sent].
    split; [reflexivity | exact Hnofetch].
Qed.

Lemma captcha_needs_secret_or_is_skipped_witness :
  let env := sampleEnvironment (9 # 10) (SendDone []) in
  let withToken := sampleForm sampleStory (Some (lit "tok")) None in
  let without := sampleForm sampleStory None None in
  response (contactForm unconfiguredProcessEnv env (sampleRequest withToken) ∅)
  = recaptchaNotConfigured
  /\ calls (contactForm sampleProcessEnv env (sampleRequest without) ∅)
     = (sendEmail sampleProcessEnv env without (lit "203.0.113.7")).2.
Proof.
  intros env withToken without.
  split.
  - pose proof (captcha_needs_secret_or_is_skipped unconfiguredProcessEnv env
                  (sampleRequest withToken) ∅
                  (checkRateLimit (lit "203.0.113.7") 3 60000 1000 ∅).2 withToken)
      as Hclaim.
    destruct Hclaim as [Hmissing _].
    + repeat split; reflexivity.
    + destruct (Hmissing (lit "tok")) as [Hout _];
        [reflexivity | discriminate | reflexivity |].
      now rewrite Hout.
  - pose proof (captcha_needs_secret_or_is_skipped sampleProcessEnv env
                  (sampleRequest without) ∅
                  (checkRateLimit (lit "203.0.113.7") 3 60000 1000 ∅).2 without)
      as Hclaim.
    destruct Hclaim as [_ Hskipped].
    + repeat split; reflexivity.
    + destruct (Hskipped eq_refl) as [Hout _].
      now rewrite Hout.
Defined.

Lemma Qle_bool_false (x y : Q) : Qle_bool x y = false <-> (y < x)%Q.
Proof.
  split.
  - intros Hle. apply Qnot_le_lt. intros H. apply Qle_bool_iff in H. congruence.
  - intros Hlt. destruct (Qle_bool x y) eqn:Hle; [| reflexivity].
    apply Qle_bool_iff in Hle. exfalso. exact (Qlt_not_le _ _ Hlt Hle).
Qed.

(** C7.  For a submission that reaches the captcha step with a token (a
    non-empty string) while the secret is configured, [result] being what
    [validateRecaptcha] returns: the handler answers 400 "reCAPTCHA
    validation failed" exactly when [result.success] is false or
    [result.score] is below 0.5, and then makes no dispatch call; when
    [result.success] is true and [result.score] is at least 0.5 the answer
    is that of the dispatch step, whose calls follow the verification
    request. *)
Theorem captcha_verdict (penv : ProcessEnv) (env : Environment)
    (request : HttpRequest) (store store' : gmap (list N) RateLimitRecord)
    (formData : ContactFormData) (token secret : jstring) :
  reachesCaptchaStep env request store formData store' ->
  recaptchaToken formData = Some token -> token <> [] ->
  RECAPTCHA_SECRET_KEY penv = Some secret -> secret <> [] ->
  let result := (validateRecaptcha penv env token).1 in
  let asked := (validateRecaptcha penv env token).2 in
  let out := contactForm penv env request store in
  status recaptchaFailed = 400
  /\ (response out = recaptchaFailed <->
      captchaSuccess result = false \/ (captchaScore result < 1 # 2)%Q)
  /\ (response out = recaptchaFailed -> calls out = asked)
  /\ (captchaSuccess result = true -> (1 # 2 <= captchaScore result)%Q ->
      out = {| response := (sendEmail penv env formData (getClientIp request)).1;
               storeAfter := store';
               calls := asked ++ (sendEmail penv env formData (getClientIp request)).2 |}).
Proof.
  intros (Hmethod & Hbody & Hvalid) Htoken Hnonempty Hsecret Hconfigured
    result asked out.
  subst result asked out.
  rewrite (contactForm_post _ _ _ _ _ Hmethod Hbody), Hvalid.
  unfold verifyCaptcha. rewrite Htoken, Hsecret. cbn [String_].
  assert (Ht : truthy (Some token) = true) by (destruct token; [contradiction | reflexivity]).
  assert (Hs : truthy (Some secret) = true) by (destruct secret; [contradiction | reflexivity]).
  rewrite Ht, Hs. cbn [negb].
  destruct (validateRecaptcha penv env token) as [result asked]. cbn [fst snd].
  pose proof (sendEmail_status penv env formData (getClientIp request)) as Hstatus.
  destruct (sendEmail penv env formData (getClientIp request)) as [answer sent].
  cbn [fst snd] in *.
  split; [reflexivity |].
  destruct (captchaSuccess result) eqn:Hsuccess; cbn [negb orb].
  - destruct (Qle_bool (1 # 2) (captchaScore result)) eqn:Hscore; cbn [negb].
    + assert (Hok : (1 # 2 <= captchaScore result)%Q) by now apply Qle_bool_iff.
      assert (Hanswer : answer <> recaptchaFailed).
      { intros ->. destruct Hstatus as [H | H]; discriminate H. }
      split; [| split].
      * cbn [response]. split; [contradiction |].
        intros [H | H]; [discriminate |].
        exfalso. exact (Qlt_not_le _ _ H Hok).
      * cbn [response]. contradiction.
      * reflexivity.
    + apply Qle_bool_false in Hscore.
      split; [| split].
      * cbn [response]. split; [now right | reflexivity].
      * reflexivity.
      * intros _ Hok. exfalso. exact (Qlt_not_le _ _ Hscore Hok).
  - split; [| split].
    + cbn [response]. split; [now left | reflexivity].
    + reflexivity.
    + discriminate.
Qed.

Lemma captcha_verdict_witness :
  let formData := sampleForm sampleStory (Some (lit "tok")) None in
  let low := sampleEnvironment (3 # 10) (SendDone []) in
  let high := sampleEnvironment (9 # 10) (SendDone []) in
  response (contactForm sampleProcessEnv low (sampleRequest formData) ∅)
  = recaptchaFailed
  /\ response (contactForm sampleProcessEnv high (sampleRequest formData) ∅)
     = (sendEmail sampleProcessEnv high formData (lit "203.0.113.7")).1.
Proof.
  intros formData low high.
  split.
  - pose proof (captcha_verdict sampleProcessEnv low (sampleRequest formData) ∅
                  (checkRateLimit (lit "203.0.113.7") 3 60000 1000 ∅).2 formData
                  (lit "tok") (lit "secret-key")) as Hclaim.
    destruct Hclaim as (_ & Hiff & _).
    + repeat split; reflexivity.
    + reflexivity.
    + discriminate.
    + reflexivity.
    + discriminate.
    + apply Hiff. right. reflexivity.
  - pose proof (captcha_verdict sampleProcessEnv high (sampleRequest formData) ∅
                  (checkRateLimit (lit "203.0.113.7") 3 60000 1000 ∅).2 formData
                  (lit "tok") (lit "secret-key")) as Hclaim.
    destruct Hclaim as (_ & _ & _ & Hpass).
    + repeat split; reflexivity.
    + reflexivity.
    + discriminate.
    + reflexivity.
    + discriminate.
    + rewrite Hpass; [reflexivity | reflexivity | discriminate].
Defined.

Lemma descriptionVerdict_clean (formData : ContactFormData) :
  urlFree formData -> withinDescriptionLimit formData ->
  descriptionVerdict formData = None.
Proof.
  unfold urlFree, withinDescriptionLimit, descriptionVerdict.
  intros Hfree Hlimit.
  destruct (description formData) as [d |]; [| reflexivity].
  cbn [String_]. rewrite (Hfree d eq_refl).
  specialize (Hlimit d eq_refl). apply Nat.ltb_ge in Hlimit. rewrite Hlimit.
  now rewrite !andb_false_r.
Qed.

(** C1, as amended.  When a submission passes every check (POST, parseable
    body, empty honeypot, email not blocklisted, client under its rate
    limit, six required fields filled within their limits, valid formats,
    names not gibberish), carries no captcha token, has a description that
    is absent or URL-free and of at most 1200 code units, and when moreover
    the connection string of the email service is configured, the email
    client can be created from it and the dispatch of the message succeeds,
    then the handler answers 200 with the success acknowledgment and makes
    exactly one outbound call, the dispatch of one message whose recipients
    are the configured ones; the store is the one the rate limiter leaves. *)
Theorem contactForm_accepts (penv : ProcessEnv) (env : Environment)
    (request : HttpRequest) (store : gmap (list N) RateLimitRecord)
    (formData : ContactFormData) (connection id : jstring) :
  PassesChecks env request store formData ->
  truthy (recaptchaToken formData) = false ->
  urlFree formData ->
  withinDescriptionLimit formData ->
  ACS_CONNECTION_STRING penv = Some connection -> connection <> [] ->
  newEmailClient env connection = true ->
  beginSend env (emailMessage penv env formData (getClientIp request)) = SendDone id ->
  let message := emailMessage penv env formData (getClientIp request) in
  contactForm penv env request store
  = {| response := successResponse;
       storeAfter := (checkRateLimit (getClientIp request) 3 60000 (Date_now env) store).2;
       calls := [BeginSend message] |}
  /\ status successResponse = 200
  /\ List.map address (recipients_to message) = RECIPIENT_ADDRESSES.
Proof.
  intros Hpasses Htoken Hfree Hlimit Hconn Hnonempty Hclient Hsend message.
  split; [| split; reflexivity].
  rewrite (contactForm_post _ _ _ _ _ (pc_method _ _ _ _ Hpasses)
             (pc_body _ _ _ _ Hpasses)).
  rewrite (validateSubmission_passes Hpasses).
  rewrite (descriptionVerdict_clean _ Hfree Hlimit).
  unfold verifyCaptcha. rewrite Htoken.
  unfold sendEmail, CONNECTION_STRING. rewrite Hconn. cbn [String_].
  assert (Htruthy : truthy (Some connection) = true)
    by (destruct connection; [contradiction | reflexivity]).
  rewrite Htruthy, Hclient. cbn [negb].
  fold message. unfold message at 1. rewrite Hsend. reflexivity.
Qed.

Lemma contactForm_accepts_witness :
  let env := sampleEnvironment (9 # 10) (SendDone (lit "op-1")) in
  let formData := sampleForm sampleStory None None in
  let message := emailMessage sampleProcessEnv env formData (lit "203.0.113.7") in
  contactForm sampleProcessEnv env (sampleRequest formData) ∅
  = {| response := successResponse;
       storeAfter := (checkRateLimit (lit "203.0.113.7") 3 60000 1000 ∅).2;
       calls := [BeginSend message] |}
  /\ status successResponse = 200
  /\ List.map address (recipients_to message) = RECIPIENT_ADDRESSES.
Proof.
  intros env formData message.
  apply (contactForm_accepts sampleProcessEnv env (sampleRequest formData) ∅ formData
           (lit "endpoint=https://mail.example.test/;accesskey=a2V5") (lit "op-1")).
  - apply sampleForm_passes.
  - reflexivity.
  - intros d [= <-]. reflexivity.
  - intros d [= <-]. vm_compute. lia.
  - reflexivity.
  - discriminate.
  - reflexivity.
  - reflexivity.
Defined.

(** C1 as the specification words it fails in four ways, each on the
    sample submission: without a connection string the answer is 500 and no
    message is dispatched; when [new EmailClient] throws the answer is 500
    and no message is dispatched; when the dispatch fails the answer is 500;
    with a URL-free description of 1201 code units the answer is 400 and no
    message is dispatched.  The handler of src/functions/contactForm.ts, for
    its part, dispatches two messages for the sample submission. *)
Lemma wellformed_submission_can_be_refused :
  ~ acceptsAsSpecified unconfiguredProcessEnv
      (sampleEnvironment (9 # 10) (SendDone (lit "op-1")))
      (sampleRequest (sampleForm sampleStory None None)) ∅
      (sampleForm sampleStory None None)
  /\ ~ acceptsAsSpecified sampleProcessEnv noClientEnvironment
         (sampleRequest (sampleForm sampleStory None None)) ∅
         (sampleForm sampleStory None None)
  /\ ~ acceptsAsSpecified sampleProcessEnv
         (sampleEnvironment (9 # 10) (SendThrows (lit "Denied by the resource provider.")))
         (sampleRequest (sampleForm sampleStory None None)) ∅
         (sampleForm sampleStory None None)
  /\ ~ acceptsAsSpecified sampleProcessEnv
         (sampleEnvironment (9 # 10) (SendDone (lit "op-1")))
         (sampleRequest (sampleForm (Some (repeat 97%N 1201)) None None)) ∅
         (sampleForm (Some (repeat 97%N 1201)) None None)
  /\ length (Plain.sent (Plain.contactForm sampleProcessEnv plainEnvironment
                           (Plain.BodyObject plainForm))) = 2%nat.
Proof.
  split; [| split; [| split; [| split]]]; [intros Hclaim .. | reflexivity].
  - destruct Hclaim as [Hstatus _];
      [apply sampleForm_passes | reflexivity | intros d [= <-]; reflexivity |].
    vm_compute in Hstatus. discriminate.
  - destruct Hclaim as [Hstatus _];
      [apply sampleForm_passes | reflexivity | intros d [= <-]; reflexivity |].
    vm_compute in Hstatus. discriminate.
  - destruct Hclaim as [Hstatus _];
      [apply sampleForm_passes | reflexivity | intros d [= <-]; reflexivity |].
    vm_compute in Hstatus. discriminate.
  - destruct Hclaim as [Hstatus _];
      [apply sampleForm_passes | reflexivity | intros d [= <-]; vm_compute; reflexivity |].
    vm_compute in Hstatus. discriminate.
Qed.

(** What the handler does on those submissions. *)
Example contactForm_without_connection_string :
  contactForm unconfiguredProcessEnv
    (sampleEnvironment (9 # 10) (SendDone (lit "op-1")))
    (sampleRequest (sampleForm sampleStory None None)) ∅
  = {| response := emailNotConfigured;
       storeAfter := (checkRateLimit (lit "203.0.113.7") 3 60000 1000 ∅).2;
       calls := [] |}.
Proof. reflexivity. Qed.

Example contactForm_client_throws :
  contactForm sampleProcessEnv noClientEnvironment
    (sampleRequest (sampleForm sampleStory None None)) ∅
  = {| response := internalServerError;
       storeAfter := (checkRateLimit (lit "203.0.113.7") 3 60000 1000 ∅).2;
       calls := [] |}.
Proof. reflexivity. Qed.

Example contactForm_dispatch_fails :
  let env :=
    sampleEnvironment (9 # 10) (SendThrows (lit "Denied by the resource provider.")) in
  let out :=
    contactForm sampleProcessEnv env (sampleRequest (sampleForm sampleStory None None)) ∅ in
  response out = failedToSend (lit "Denied by the resource provider.")
  /\ calls out
     = [BeginSend (emailMessage sampleProcessEnv env (sampleForm sampleStory None None)
                     (lit "203.0.113.7"))].
Proof. split; reflexivity. Qed.

Example contactForm_long_description :
  let out :=
    contactForm sampleProcessEnv (sampleEnvironment (9 # 10) (SendDone (lit "op-1")))
      (sampleRequest (sampleForm (Some (repeat 97%N 1201)) None None)) ∅ in
  response out
  = errorResponse 400 (lit "description is too long (max 1200 characters)")
  /\ calls out = [].
Proof. split; vm_compute; reflexivity. Qed.

(** The handler of src/functions/contactForm.ts dispatches two messages for
    a submission it accepts: the notification to the configured recipients,
    then the auto-reply to the submitter. *)
Lemma plain_contactForm_sends_two (penv : ProcessEnv) (env : Plain.Environment)
    (formData : Plain.ContactFormData) (connection id1 id2 : jstring) :
  truthy (Plain.firstName formData) = true ->
  truthy (Plain.lastName formData) = true ->
  truthy (Plain.email formData) = true ->
  truthy (Plain.phone formData) = true ->
  truthy (Plain.zipCode formData) = true ->
  truthy (Plain.caseType formData) = true ->
  ACS_CONNECTION_STRING penv = Some connection ->
  Plain.newEmailClient env connection = None ->
  Plain.beginSend env (Plain.notificationEmail penv formData) = SendDone id1 ->
  Plain.beginSend env (Plain.autoReplyEmail penv formData) = SendDone id2 ->
  let out := Plain.contactForm penv env (Plain.BodyObject formData) in
  Plain.status (Plain.response out) = 200
  /\ Plain.sent out
     = [Plain.notificationEmail penv formData; Plain.autoReplyEmail penv formData]
  /\ List.map address (Plain.recipients_to (Plain.notificationEmail penv formData))
     = Plain.RECIPIENT_ADDRESSES
  /\ List.map address (Plain.recipients_to (Plain.autoReplyEmail penv formData))
     = [String_ (Plain.email formData)].
Proof.
  intros H1 H2 H3 H4 H5 H6 Hconn Hclient Hfirst Hsecond out. subst out.
  unfold Plain.contactForm, CONNECTION_STRING.
  rewrite H1, H2, H3, H4, H5, H6, Hconn, Hclient. cbn [negb orb].
  rewrite Hfirst, Hsecond.
  repeat split; reflexivity.
Qed.

Example plain_contactForm_sample :
  let out := Plain.contactForm sampleProcessEnv plainEnvironment (Plain.BodyObject plainForm) in
  Plain.status (Plain.response out) = 200
  /\ length (Plain.sent out) = 2%nat
  /\ List.map (fun m => List.map address (Plain.recipients_to m)) (Plain.sent out)
     = [Plain.RECIPIENT_ADDRESSES; [lit "jane.carter@example.test"]].
Proof. repeat split; reflexivity. Qed.

(* ===================================================================== *)
(** ** Further properties of the rate limiter *)
(* ===================================================================== *)

Lemma checkRateLimit_lookup_other (identifier other : list N)
    (maxRequests windowMs now : Z) (store : gmap (list N) RateLimitRecord) :
  other <> identifier ->
  (checkRateLimit identifier maxRequests windowMs now store).2 !! other
  = store !! other.
Proof.
  intros Hother. unfold checkRateLimit.
  destruct (store !! identifier) as [record |]; simpl.
  - destruct (resetTime record <? now); simpl.
    + now apply lookup_insert_ne.
    + destruct (maxRequests <=? count record); simpl;
        [reflexivity | now apply lookup_insert_ne].
  - now apply lookup_insert_ne.
Qed.

(** X1.  A call of [checkRateLimit] for one identifier leaves the record of
    every other identifier as it was, whether the call is allowed or
    denied; the same holds for a run of calls none of which is for the
    other identifier. *)
Theorem checkRateLimit_other_identifiers (other : list N) (maxRequests : Z)
    (reqs : list (list N * Z * Z)) (store : gmap (list N) RateLimitRecord) :
  Forall (fun req => req.1.1 <> other) reqs ->
  (checkRateLimitAll maxRequests reqs store).2 !! other = store !! other.
Proof.
  revert store.
  induction reqs as [| [[identifier windowMs] now] reqs IH]; intros store Hall.
  - reflexivity.
  - inversion Hall as [| ? ? Hhead Htail]; subst. simpl in Hhead.
    simpl.
    pose proof (checkRateLimit_lookup_other identifier other maxRequests windowMs
                  now store (not_eq_sym Hhead)) as Hstep.
    destruct (checkRateLimit identifier maxRequests windowMs now store)
      as [allowed store1].
    specialize (IH store1 Htail).
    destruct (checkRateLimitAll maxRequests reqs store1) as [rest store2].
    simpl in *. congruence.
Qed.

Lemma checkRateLimit_other_identifiers_witness :
  let busy := lit "203.0.113.7" in
  let quiet := lit "198.51.100.2" in
  let store : gmap (list N) RateLimitRecord :=
    {[ quiet := {| count := 2; resetTime := 5000 |} ]} in
  (checkRateLimitAll 3 [(busy, 60000, 1000); (busy, 60000, 1001); (busy, 60000, 1002);
                        (busy, 60000, 1003)] store).2 !! quiet
  = Some {| count := 2; resetTime := 5000 |}.
Proof.
  intros busy quiet store.
  rewrite (checkRateLimit_other_identifiers quiet 3 _ store).
  - apply lookup_singleton_eq.
  - repeat constructor; simpl; discriminate.
Defined.

Lemma checkRateLimit_keeps_keys (identifier key : list N)
    (maxRequests windowMs now : Z) (store : gmap (list N) RateLimitRecord) :
  is_Some (store !! key) ->
  is_Some ((checkRateLimit identifier maxRequests windowMs now store).2 !! key).
Proof.
  intros Hkey.
  destruct (decide (key = identifier)) as [-> | Hne].
  - unfold checkRateLimit.
    destruct (store !! identifier) as [record |] eqn:Hrec; simpl.
    + destruct (resetTime record <? now); simpl;
        [rewrite lookup_insert_eq; eauto |].
      destruct (maxRequests <=? count record); simpl;
        [rewrite Hrec; eauto | rewrite lookup_insert_eq; eauto].
    + rewrite lookup_insert_eq; eauto.
  - now rewrite checkRateLimit_lookup_other.
Qed.

(** X2.  The store never loses a record: after any run of calls every
    identifier that had a record still has one (nothing is evicted, not
    even an expired record of a client that never returns), and every
    identifier that was served has one. *)
Theorem checkRateLimit_never_evicts (maxRequests : Z)
    (reqs : list (list N * Z * Z)) (store : gmap (list N) RateLimitRecord) :
  dom store ∪ list_to_set (List.map (fun req => req.1.1) reqs)
  ⊆ dom (checkRateLimitAll maxRequests reqs store).2.
Proof.
  revert store.
  induction reqs as [| [[identifier windowMs] now] reqs IH]; intros store.
  - simpl. set_solver.
  - simpl.
    assert (Hkeep : dom store ∪ {[identifier]}
                    ⊆ dom (checkRateLimit identifier maxRequests windowMs now store).2).
    { intros key Hkey. apply elem_of_dom.
      apply elem_of_union in Hkey as [Hkey | Hkey].
      - apply checkRateLimit_keeps_keys. now apply elem_of_dom.
      - apply elem_of_singleton in Hkey as ->.
        unfold checkRateLimit.
        destruct (store !! identifier) as [record |] eqn:Hrec; simpl.
        + destruct (resetTime record <? now); simpl;
            [rewrite lookup_insert_eq; eauto |].
          destruct (maxRequests <=? count record); simpl;
            [rewrite Hrec; eauto | rewrite lookup_insert_eq; eauto].
        + rewrite lookup_insert_eq; eauto. }
    destruct (checkRateLimit identifier maxRequests windowMs now store)
      as [allowed store1].
    specialize (IH store1).
    destruct (checkRateLimitAll maxRequests reqs store1) as [rest store2].
    simpl in *. set_solver.
Qed.

(** X3.  The window is fixed, not sliding: a call made while the record of
    the identifier is live (the clock has not passed its reset time) leaves
    the reset time as it was, whether it is allowed or denied, and raises
    the count by one exactly when it is allowed. *)
Theorem checkRateLimit_window_is_fixed (identifier : list N)
    (maxRequests windowMs now : Z) (store : gmap (list N) RateLimitRecord)
    (record : RateLimitRecord) :
  store !! identifier = Some record ->
  now <= resetTime record ->
  let '(allowed, store') := checkRateLimit identifier maxRequests windowMs now store in
  exists record',
    store' !! identifier = Some record'
    /\ resetTime record' = resetTime record
    /\ count record' = (if allowed then count record + 1 else count record)
    /\ (allowed = true <-> count record < maxRequests).
Proof.
  intros Hrec Hlive.
  destruct (Z.lt_ge_cases (count record) maxRequests) as [Hroom | Hfull].
  - rewrite (checkRateLimit_counted _ _ _ _ _ _ Hrec Hlive Hroom).
    eexists. rewrite lookup_insert_eq. repeat split; auto.
  - rewrite (checkRateLimit_full _ _ _ _ _ _ Hrec Hlive Hfull).
    exists record. repeat split; auto; [discriminate | lia].
Qed.

Lemma checkRateLimit_window_is_fixed_witness :
  let ip := lit "203.0.113.7" in
  let store : gmap (list N) RateLimitRecord :=
    {[ ip := {| count := 2; resetTime := 61000 |} ]} in
  let '(allowed, store') := checkRateLimit ip 3 60000 59000 store in
  exists record',
    store' !! ip = Some record'
    /\ resetTime record' = 61000
    /\ count record' = (if allowed then 2 + 1 else 2)
    /\ (allowed = true <-> 2 < 3).
Proof.
  intros ip store.
  apply (checkRateLimit_window_is_fixed ip 3 60000 59000 store
           {| count := 2; resetTime := 61000 |}).
  - apply lookup_singleton_eq.
  - simpl. lia.
Defined.

Lemma answersWithin_allowed (budget n : nat) :
  answersWithin (S budget) (S n) = true :: answersWithin budget n.
Proof. reflexivity. Qed.

Lemma answersWithin_denied (n : nat) :
  answersWithin 0 (S n) = false :: answersWithin 0 n.
Proof.
  unfold answersWithin. rewrite !Nat.min_0_r, !Nat.sub_0_r. reflexivity.
Qed.

Lemma checkRateLimitAll_live (identifier : list N) (maxRequests : Z)
    (later : list (Z * Z)) :
  forall (store : gmap (list N) RateLimitRecord) (record : RateLimitRecord),
    store !! identifier = Some record ->
    Forall (fun wt => wt.2 <= resetTime record) later ->
    (checkRateLimitAll maxRequests (callsOf identifier later) store).1
    = answersWithin (Z.to_nat (maxRequests - count record)) (length later).
Proof.
  induction later as [| [windowMs now] later IH]; intros store record Hrec Hlive.
  - reflexivity.
  - inversion Hlive as [| ? ? Hnow Hrest]; subst. simpl in Hnow.
    cbn [callsOf List.map checkRateLimitAll fst snd length].
    destruct (Z.lt_ge_cases (count record) maxRequests) as [Hroom | Hfull].
    + rewrite (checkRateLimit_counted _ _ _ _ _ _ Hrec Hnow Hroom).
      set (record' := {| count := count record + 1; resetTime := resetTime record |}).
      specialize (IH (<[identifier := record']> store) record'
                    (lookup_insert_eq _ _ _) Hrest).
      fold (callsOf identifier later).
      destruct (checkRateLimitAll maxRequests (callsOf identifier later)
                  (<[identifier := record']> store)) as [rest store2].
      simpl in IH. cbn [fst]. rewrite IH. subst record'. cbn [count].
      replace (Z.to_nat (maxRequests - count record))
        with (S (Z.to_nat (maxRequests - (count record + 1)))) by lia.
      now rewrite answersWithin_allowed.
    + rewrite (checkRateLimit_full _ _ _ _ _ _ Hrec Hnow Hfull).
      specialize (IH store record Hrec Hrest).
      fold (callsOf identifier later).
      destruct (checkRateLimitAll maxRequests (callsOf identifier later) store)
        as [rest store2].
      simpl in IH. cbn [fst]. rewrite IH.
      replace (Z.to_nat (maxRequests - count record)) with 0%nat by lia.
      now rewrite answersWithin_denied.
Qed.

(** X4.  The budget of a window: when the first call of an identifier opens
    a window (no record, or an expired one) and further calls of that
    identifier follow before the window expires, the first call is allowed,
    then as many as [maxRequests - 1] more, and every call after those is
    denied.  The first call is allowed whatever [maxRequests] is: with a
    limit of 0 or below one request per window still passes. *)
Theorem checkRateLimit_window_budget (identifier : list N)
    (maxRequests windowMs now : Z) (later : list (Z * Z))
    (store : gmap (list N) RateLimitRecord) :
  (store !! identifier = None
   \/ exists record, store !! identifier = Some record /\ resetTime record < now) ->
  Forall (fun wt => wt.2 <= now + windowMs) later ->
  (checkRateLimitAll maxRequests
     ((identifier, windowMs, now) :: callsOf identifier later) store).1
  = true :: answersWithin (Z.to_nat (maxRequests - 1)) (length later).
Proof.
  intros Hstart Hlive.
  cbn [checkRateLimitAll].
  assert (Hfirst : checkRateLimit identifier maxRequests windowMs now store
                   = (true, <[identifier := freshRecord now windowMs]> store)).
  { destruct Hstart as [Hnone | (record & Hrec & Hold)].
    - now apply checkRateLimit_first.
    - now apply checkRateLimit_expired with record. }
  rewrite Hfirst.
  pose proof (checkRateLimitAll_live identifier maxRequests later
                (<[identifier := freshRecord now windowMs]> store)
                (freshRecord now windowMs) (lookup_insert_eq _ _ _) Hlive) as Hrest.
  destruct (checkRateLimitAll maxRequests (callsOf identifier later)
              (<[identifier := freshRecord now windowMs]> store)) as [rest store2].
  simpl in Hrest. cbn [fst]. now rewrite Hrest.
Qed.

Lemma checkRateLimit_window_budget_witness :
  (checkRateLimitAll 0
     ((lit "203.0.113.7", 60000, 1000)
      :: callsOf (lit "203.0.113.7") [(60000, 1500); (5, 2000)]) ∅).1
  = [true; false; false]
  /\ (checkRateLimitAll 3
        ((lit "203.0.113.7", 60000, 1000)
         :: callsOf (lit "203.0.113.7")
              [(60000, 1500); (5, 2000); (60000, 61000); (60000, 61000)]) ∅).1
     = [true; true; true; false; false].
Proof.
  split.
  - apply (checkRateLimit_window_budget (lit "203.0.113.7") 0 60000 1000
             [(60000, 1500); (5, 2000)] ∅).
    + left. reflexivity.
    + repeat constructor; simpl; lia.
  - apply (checkRateLimit_window_budget (lit "203.0.113.7") 3 60000 1000
             [(60000, 1500); (5, 2000); (60000, 61000); (60000, 61000)] ∅).
    + left. reflexivity.
    + repeat constructor; simpl; lia.
Defined.

(* ===================================================================== *)
(** ** Further properties of the validators *)
(* ===================================================================== *)

Section Patterns.

Implicit Types (r : regex) (s : list N) (c : N) (p : N -> bool).

Lemma inLang_Class p s : inLang (Class p) s <-> exists c, s = [c] /\ p c = true.
Proof.
  split.
  - intros H. inversion H; subst. eauto.
  - intros (c & -> & Hc). now constructor.
Qed.

Lemma inLang_Star_Class p s :
  inLang (Star (Class p)) s <-> Forall (fun c => p c = true) s.
Proof.
  split.
  - intros H. remember (Star (Class p)) as r eqn:Hr.
    induction H as [| q d Hq | r1 r2 s1 s2 H1 IH1 H2 IH2 | r1 r2 t H IH
                    | r1 r2 t H IH | r0 | r0 s1 s2 H1 IH1 H2 IH2];
      try discriminate.
    + constructor.
    + injection Hr as ->. apply inLang_Class in H1 as (d & -> & Hd).
      simpl. constructor; auto.
  - induction s as [| c s IH]; intros H.
    + constructor.
    + inversion H; subst.
      change (c :: s) with ([c] ++ s). constructor; [now constructor | auto].
Qed.

Lemma inLang_Plus_Class p s :
  inLang (Plus (Class p)) s <-> s <> [] /\ Forall (fun c => p c = true) s.
Proof.
  unfold Plus. rewrite inLang_Seq. split.
  - intros (s1 & s2 & -> & H1 & H2).
    apply inLang_Class in H1 as (c & -> & Hc). apply inLang_Star_Class in H2.
    split; [discriminate | now constructor].
  - intros [Hne Hall]. destruct s as [| c s]; [contradiction |].
    inversion Hall; subst.
    exists [c], s. repeat split; [now constructor | now apply inLang_Star_Class].
Qed.

Lemma inLang_Times_Class (n : nat) p s :
  inLang (Times n (Class p)) s <-> length s = n /\ Forall (fun c => p c = true) s.
Proof.
  revert s. induction n as [| n IH]; intros s; simpl.
  - rewrite inLang_Eps. split.
    + intros ->. split; [reflexivity | constructor].
    + intros [Hlen _]. now destruct s.
  - rewrite inLang_Seq. split.
    + intros (s1 & s2 & -> & H1 & H2).
      apply inLang_Class in H1 as (c & -> & Hc). apply IH in H2 as [Hlen Hall].
      simpl. split; [now f_equal | now constructor].
    + intros [Hlen Hall]. destruct s as [| c s]; [discriminate |].
      inversion Hall; subst. injection Hlen as Hlen.
      exists [c], s. repeat split; [now constructor | now apply IH].
Qed.

Lemma inLang_Chr_exact c s : inLang (Chr false c) s <-> s = [c].
Proof.
  unfold Chr. rewrite inLang_Class. split.
  - intros (x & -> & Hx). rewrite andb_false_l, orb_false_r in Hx.
    apply N.eqb_eq in Hx. now subst.
  - intros ->. exists c. split; [reflexivity |]. now rewrite N.eqb_refl.
Qed.

Lemma inLang_Chr_fold c s :
  isUpperAscii c = false ->
  inLang (Chr true c) s <-> exists x, s = [x] /\ foldCase x = c.
Proof.
  intros Hc. unfold Chr. rewrite inLang_Class.
  assert (Hmatch : forall x,
             (x =? c)%N
             || true && (isUpperAscii c && (x =? c + 32)%N
                         || isLowerAscii c && (x =? c - 32)%N) = true
             <-> foldCase x = c).
  { intros x. rewrite Hc. cbn [andb orb].
    unfold foldCase, isLowerAscii, isUpperAscii in *.
    destruct (N.eqb_spec x c) as [-> | Hne]; cbn [orb].
    - rewrite Hc. tauto.
    - destruct (N.leb_spec 65 x), (N.leb_spec x 90), (N.leb_spec 97 c),
        (N.leb_spec c 122), (N.eqb_spec x (c - 32)); cbn [andb];
        split; intros; try discriminate; try lia. }
  split; intros (x & -> & Hx); exists x; (split; [reflexivity | now apply Hmatch]).
Qed.

Lemma inLang_Str_fold (pattern : list N) :
  forallb (fun c => negb (isUpperAscii c)) pattern = true ->
  forall s, inLang (Str true pattern) s <-> List.map foldCase s = pattern.
Proof.
  induction pattern as [| c pattern IH]; intros Hlower s; simpl.
  - rewrite inLang_Eps. split; [now intros -> | now destruct s].
  - simpl in Hlower. apply andb_prop in Hlower as [Hc Hrest].
    apply negb_true_iff in Hc.
    rewrite inLang_Seq. split.
    + intros (s1 & s2 & -> & H1 & H2).
      apply (inLang_Chr_fold _ _ Hc) in H1 as (x & -> & Hx).
      apply (IH Hrest) in H2. simpl. now rewrite Hx, H2.
    + intros Hmap. destruct s as [| x s]; [discriminate |].
      simpl in Hmap. injection Hmap as Hx Hs.
      exists [x], s. repeat split.
      * apply (inLang_Chr_fold _ _ Hc). eauto.
      * now apply IH.
Qed.

Lemma inLang_AnyOf (rs : list regex) s :
  inLang (AnyOf rs) s <-> exists r, In r rs /\ inLang r s.
Proof.
  induction rs as [| r rs IH].
  - simpl. split; [intros H; inversion H | intros (r & [] & _)].
  - destruct rs as [| r' rs].
    + simpl. split; [eauto | intros (r0 & [<- | []] & H); exact H].
    + change (AnyOf (r :: r' :: rs)) with (Alt r (AnyOf (r' :: rs))).
      rewrite inLang_Alt, IH. split.
      * intros [H | (r0 & Hin & H)].
        -- exists r. split; [now left | exact H].
        -- exists r0. split; [now right | exact H].
      * intros (r0 & [<- | Hin] & H); [now left | right; eauto].
Qed.

End Patterns.

(** X5.  [isValidZipCode] accepts exactly the strings made of five digits,
    and those made of five digits, a hyphen and four digits; nothing may
    come before or after (no surrounding blank, no trailing line feed). *)
Theorem isValidZipCode_iff (zipCode : jstring) :
  isValidZipCode zipCode = true <->
  (length zipCode = 5%nat /\ allDigits zipCode)
  \/ exists five four,
       zipCode = five ++ 45%N :: four
       /\ length five = 5%nat /\ allDigits five
       /\ length four = 4%nat /\ allDigits four.
Proof.
  rewrite isValidZipCode_spec. unfold zipRegex, Opt, allDigits.
  rewrite inLang_Seq. split.
  - intros (five & rest & -> & Hfive & Hrest).
    apply inLang_Times_Class in Hfive as [Hlen Hall].
    apply inLang_Alt in Hrest as [Hrest | Hrest].
    + apply inLang_Seq in Hrest as (dash & four & -> & Hdash & Hfour).
      apply inLang_Chr_exact in Hdash as ->.
      apply inLang_Times_Class in Hfour as [Hlen4 Hall4].
      right. exists five, four. auto.
    + apply inLang_Eps in Hrest as ->. rewrite List.app_nil_r. now left.
  - intros [[Hlen Hall] | (five & four & -> & Hlen & Hall & Hlen4 & Hall4)].
    + exists zipCode, []. rewrite List.app_nil_r.
      repeat split; [now apply inLang_Times_Class | apply inAltR; constructor].
    + exists five, (45%N :: four).
      repeat split; [now apply inLang_Times_Class |].
      apply inAltL. change (45%N :: four) with ([45%N] ++ four).
      constructor; [now apply inLang_Chr_exact | now apply inLang_Times_Class].
Qed.

(** X6.  [isValidEmail] accepts exactly the strings of the shape
    [local@domain.tld] where each of the three parts is non-empty and holds
    neither whitespace nor [@]; so an accepted address has exactly one [@],
    no whitespace, and a dot after the [@] that is neither first nor last
    there. *)
Theorem isValidEmail_iff (email : jstring) :
  isValidEmail email = true <->
  exists localPart domain tld,
    email = localPart ++ 64%N :: domain ++ 46%N :: tld
    /\ emailPart localPart /\ emailPart domain /\ emailPart tld.
Proof.
  rewrite isValidEmail_spec. unfold emailRegex, emailPart. split.
  - intros H.
    apply inLang_Seq in H as (localPart & rest & -> & Hlocal & H).
    apply inLang_Seq in H as (at_ & rest' & -> & Hat & H).
    apply inLang_Seq in H as (domain & rest'' & -> & Hdomain & H).
    apply inLang_Seq in H as (dot & tld & -> & Hdot & Htld).
    apply inLang_Chr_exact in Hat as ->. apply inLang_Chr_exact in Hdot as ->.
    apply inLang_Plus_Class in Hlocal, Hdomain, Htld.
    exists localPart, domain, tld. auto.
  - intros (localPart & domain & tld & -> & Hlocal & Hdomain & Htld).
    apply inLang_Plus_Class in Hlocal, Hdomain, Htld.
    constructor; [exact Hlocal |].
    change (64%N :: domain ++ 46%N :: tld) with ([64%N] ++ domain ++ [46%N] ++ tld).
    constructor; [now apply inLang_Chr_exact |].
    constructor; [exact Hdomain |].
    constructor; [now apply inLang_Chr_exact | exact Htld].
Qed.

Lemma tlds_lower (tld : string) :
  In tld tlds -> forallb (fun c => negb (isUpperAscii c)) (lit tld) = true.
Proof.
  intros Hin. unfold tlds in Hin. simpl in Hin.
  repeat (destruct Hin as [<- | Hin]; [reflexivity |]). contradiction.
Qed.

Lemma spelled_Str (word : string) (s : jstring) :
  forallb (fun c => negb (isUpperAscii c)) (lit word) = true ->
  inLang (Str true (lit word)) s <-> spelled word s.
Proof. intros Hlower. now apply inLang_Str_fold. Qed.

Lemma lit_app (word1 word2 : string) : lit (word1 ++ word2) = lit word1 ++ lit word2.
Proof.
  unfold lit. induction word1 as [| a word1 IH]; [reflexivity |].
  simpl. now rewrite IH.
Qed.

Lemma spelled_app (word1 word2 : string) (s1 s2 : jstring) :
  spelled word1 s1 -> spelled word2 s2 -> spelled (word1 ++ word2) (s1 ++ s2).
Proof.
  unfold spelled. intros H1 H2.
  now rewrite List.map_app, H1, H2, lit_app.
Qed.

Lemma spelled_split (word1 word2 : string) (s : jstring) :
  spelled (word1 ++ word2) s ->
  exists s1 s2, s = s1 ++ s2 /\ spelled word1 s1 /\ spelled word2 s2.
Proof.
  unfold spelled. rewrite lit_app.
  intros H. apply List.map_eq_app in H as (s1 & s2 & -> & H1 & H2). eauto.
Qed.

Lemma foldCase_dot (x : N) : foldCase x = 46%N <-> x = 46%N.
Proof.
  unfold foldCase, isUpperAscii.
  destruct (N.leb_spec 65 x), (N.leb_spec x 90); cbn [andb]; lia.
Qed.

Lemma nonempty_last (s : jstring) (p : N -> bool) :
  s <> [] -> Forall (fun c => p c = true) s ->
  exists front c, s = front ++ [c] /\ p c = true.
Proof.
  intros Hne Hall. destruct (List.exists_last Hne) as (front & c & ->).
  apply List.Forall_app in Hall as [_ Hc]. inversion Hc; subst. eauto.
Qed.

(** X7.  [containsUrls] is true exactly of the texts that hold a URL-like
    token: [http://] or [https://] followed by a code unit that is no
    whitespace, or [www.] followed by one, or a code unit that is no
    whitespace followed by a dot and one of the 18 listed suffixes; letters
    match in either case, and nothing is required after the suffix (so
    "ok.Come" counts, while "ok. Come" and ".com" alone do not). *)
Theorem containsUrls_iff (text : jstring) :
  containsUrls text = true <-> urlLike text.
Proof.
  rewrite containsUrls_spec. split.
  - intros (pre & mid & post & -> & Hmid).
    unfold urlRegex in Hmid.
    apply inLang_AnyOf in Hmid as (r & Hin & Hmid).
    destruct Hin as [<- | [<- | [<- | []]]].
    + apply inLang_Seq in Hmid as (h & rest & -> & Hh & Hmid).
      apply inLang_Seq in Hmid as (o & rest' & -> & Ho & Hmid).
      apply inLang_Seq in Hmid as (cs & body & -> & Hcs & Hbody).
      apply (spelled_Str "http") in Hh; [| reflexivity].
      apply (spelled_Str "://") in Hcs; [| reflexivity].
      apply inLang_Plus_Class in Hbody as [Hne Hall].
      destruct body as [| c body]; [contradiction |]. inversion Hall; subst.
      replace (pre ++ (h ++ o ++ cs ++ c :: body) ++ post)
        with (pre ++ (h ++ o ++ cs) ++ c :: (body ++ post))
        by (rewrite <- !List.app_assoc; reflexivity).
      apply urlScheme; [| assumption].
      apply inLang_Alt in Ho as [Ho | Ho].
      * right. apply (inLang_Chr_fold 115 _ eq_refl) in Ho as (x & -> & Hx).
        apply (spelled_app "http" "s://"); [exact Hh |].
        apply (spelled_app "s" "://"); [| exact Hcs].
        unfold spelled. simpl. now rewrite Hx.
      * left. apply inLang_Eps in Ho as ->.
        now apply (spelled_app "http" "://").
    + apply inLang_Seq in Hmid as (www & body & -> & Hwww & Hbody).
      apply (spelled_Str "www.") in Hwww; [| reflexivity].
      apply inLang_Plus_Class in Hbody as [Hne Hall].
      destruct body as [| c body]; [contradiction |]. inversion Hall; subst.
      replace (pre ++ (www ++ c :: body) ++ post)
        with (pre ++ www ++ c :: (body ++ post))
        by (rewrite <- !List.app_assoc; reflexivity).
      now apply urlWww.
    + apply inLang_Seq in Hmid as (body & rest & -> & Hbody & Hmid).
      apply inLang_Seq in Hmid as (dot & rest' & -> & Hdot & Hmid).
      apply inLang_Seq in Hmid as (suffix & tail & -> & Hsuffix & Htail).
      apply inLang_Plus_Class in Hbody as [Hne Hall].
      destruct (nonempty_last body notSpace Hne Hall) as (front & c & -> & Hc).
      apply (inLang_Chr_fold 46 _ eq_refl) in Hdot as (x & -> & Hx).
      apply foldCase_dot in Hx as ->.
      apply inLang_AnyOf in Hsuffix as (r & Hin & Hsuffix).
      apply List.in_map_iff in Hin as (tld & <- & Hin).
      apply (spelled_Str tld) in Hsuffix; [| now apply tlds_lower].
      replace (pre ++ ((front ++ [c]) ++ [46%N] ++ suffix ++ tail) ++ post)
        with ((pre ++ front) ++ c :: 46%N :: suffix ++ (tail ++ post))
        by (rewrite <- !List.app_assoc; reflexivity).
      now apply urlSuffix with tld.
  - intros H. unfold urlRegex.
    destruct H as [pre scheme post c Hscheme Hc | pre www post c Hwww Hc
                   | pre suffix post c tld Hin Hsuffix Hc].
    + exists pre, (scheme ++ [c]), post.
      split; [rewrite <- !List.app_assoc; reflexivity |].
      apply inLang_AnyOf. eexists. split; [left; reflexivity |].
      assert (Hbody : inLang (Plus (Class notSpace)) [c]).
      { apply inLang_Plus_Class. split; [discriminate | now repeat constructor]. }
      destruct Hscheme as [Hscheme | Hscheme].
      * apply (spelled_split "http" "://") in Hscheme as (h & cs & -> & Hh & Hcs).
        apply (spelled_Str "http") in Hh; [| reflexivity].
        apply (spelled_Str "://") in Hcs; [| reflexivity].
        rewrite <- List.app_assoc. constructor; [exact Hh |].
        change (cs ++ [c]) with ([] ++ cs ++ [c]).
        constructor; [apply inAltR; constructor |]. now constructor.
      * apply (spelled_split "http" "s://") in Hscheme as (h & rest & -> & Hh & Hrest).
        apply (spelled_split "s" "://") in Hrest as (o & cs & -> & Ho & Hcs).
        apply (spelled_Str "http") in Hh; [| reflexivity].
        apply (spelled_Str "://") in Hcs; [| reflexivity].
        rewrite <- !List.app_assoc. constructor; [exact Hh |].
        constructor; [| now constructor].
        apply inAltL. apply (inLang_Chr_fold 115 _ eq_refl).
        unfold spelled in Ho. destruct o as [| x [| y o]]; try discriminate.
        simpl in Ho. injection Ho as Hx. eauto.
    + exists pre, (www ++ [c]), post.
      split; [rewrite <- !List.app_assoc; reflexivity |].
      apply inLang_AnyOf. eexists. split; [right; left; reflexivity |].
      apply (spelled_Str "www.") in Hwww; [| reflexivity].
      constructor; [exact Hwww |].
      apply inLang_Plus_Class. split; [discriminate | now repeat constructor].
    + exists pre, ([c] ++ [46%N] ++ suffix ++ []), post.
      split; [rewrite <- !List.app_assoc; reflexivity |].
      apply inLang_AnyOf. eexists. split; [right; right; left; reflexivity |].
      constructor.
      { apply inLang_Plus_Class. split; [discriminate | now repeat constructor]. }
      constructor.
      { apply (inLang_Chr_fold 46 _ eq_refl). exists 46%N. split; reflexivity. }
      constructor; [| constructor].
      apply inLang_AnyOf. exists (Str true (lit tld)). split.
      * apply List.in_map_iff. eauto.
      * apply (spelled_Str tld); [now apply tlds_lower | exact Hsuffix].
Qed.

(* ===================================================================== *)
(** ** Further properties of the handler *)
(* ===================================================================== *)

Lemma strictEq_true (s t : jstring) : strictEq s t = true <-> s = t.
Proof. unfold strictEq. apply bool_decide_eq_true. Qed.

Lemma truthy_blank (v : jstring) : ~ blank v -> truthy (Some v) = true.
Proof. destruct v; [intros H; exfalso; apply H; constructor | reflexivity]. Qed.

Lemma present_check (value : option jstring) :
  negb (truthy value) || strictEq (trim (String_ value)) [] = false <-> present value.
Proof.
  unfold present. split.
  - intros H. apply orb_false_iff in H as [Htruthy Htrim].
    apply negb_false_iff in Htruthy.
    destruct value as [v |]; [| discriminate]. exists v. split; [reflexivity |].
    apply strictEq_false in Htrim. cbn [String_] in Htrim. now rewrite <- trim_nil.
  - intros (v & -> & Hblank). cbn [String_].
    rewrite (truthy_blank _ Hblank). cbn [negb orb].
    apply strictEq_false. now rewrite trim_nil.
Qed.

Lemma checkRequired_None (fields : list string) (formData : ContactFormData) :
  checkRequired fields formData = None <->
  Forall (fun field => present (getField field formData)) fields.
Proof.
  induction fields as [| field fields IH]; cbn [checkRequired].
  - split; [constructor | reflexivity].
  - destruct (negb (truthy (getField field formData))
              || strictEq (trim (String_ (getField field formData))) []) eqn:Hcheck.
    + split; [discriminate |]. intros H. inversion H as [| ? ? Hhead _]; subst.
      apply present_check in Hhead. congruence.
    + apply present_check in Hcheck. rewrite IH. split.
      * now constructor.
      * intros H. now inversion H.
Qed.

(** X8.  The loop over the required fields answers for the first field, in
    the order firstName, lastName, email, phone, zipCode, caseType, whose
    value is missing, empty or blank: a 400 whose error is the name of that
    field followed by " is required"; later fields are not looked at. *)
Theorem checkFields_first_missing (formData : ContactFormData)
    (before after : list string) (field : string) :
  requiredFields = before ++ field :: after ->
  Forall (fun name => present (getField name formData)) before ->
  ~ present (getField field formData) ->
  checkFields formData
  = Some (errorResponse 400 (lit field ++ lit " is required")).
Proof.
  intros Hsplit Hbefore Hmissing. unfold checkFields. rewrite Hsplit.
  clear Hsplit. induction before as [| name before IH]; simpl.
  - destruct (negb (truthy (getField field formData))
              || strictEq (trim (String_ (getField field formData))) []) eqn:Hcheck;
      [reflexivity |].
    apply present_check in Hcheck. contradiction.
  - inversion Hbefore as [| ? ? Hname Hrest]; subst.
    apply present_check in Hname. rewrite Hname. now apply IH.
Qed.

Lemma checkFields_first_missing_witness :
  checkFields
    {| firstName := Some (lit "Jane"); lastName := Some (lit "  ");
       email := None; phone := Some (repeat 49%N 30); zipCode := None;
       caseType := None; description := None; recaptchaToken := None;
       website := None |}
  = Some (errorResponse 400 (lit "lastName" ++ lit " is required")).
Proof.
  apply (checkFields_first_missing _ ["firstName"%string]
           ["email"; "phone"; "zipCode"; "caseType"]%string "lastName").
  - reflexivity.
  - repeat constructor. exists (lit "Jane"). split; [reflexivity |].
    rewrite <- trim_nil. vm_compute. discriminate.
  - intros (v & Hv & Hblank). simpl in Hv. injection Hv as <-.
    apply Hblank. repeat constructor.
Defined.

Lemma checkLengths_None (limits : list (string * nat)) (formData : ContactFormData) :
  checkLengths limits formData = None <->
  Forall (fun limit => forall v, getField limit.1 formData = Some v ->
                                 (length v <= limit.2)%nat) limits.
Proof.
  induction limits as [| [field maxLength] limits IH]; cbn [checkLengths].
  - split; [constructor | reflexivity].
  - destruct (truthy (getField field formData)
              && (maxLength <? length (String_ (getField field formData)))%nat)
      eqn:Hcheck.
    + split; [discriminate |]. intros H. inversion H as [| ? ? Hhead _]; subst.
      simpl in Hhead. apply andb_prop in Hcheck as [Htruthy Hlong].
      destruct (getField field formData) as [v |]; [| discriminate].
      specialize (Hhead v eq_refl). apply Nat.ltb_lt in Hlong. simpl in Hlong. lia.
    + rewrite IH. split.
      * intros Hrest. constructor; [| exact Hrest]. simpl. intros v Hv.
        rewrite Hv in Hcheck. cbn [String_] in Hcheck.
        destruct v as [| c v]; [simpl; lia |].
        cbn [truthy andb] in Hcheck. now apply Nat.ltb_ge in Hcheck.
      * intros H. now inversion H.
Qed.

(** X9.  Once the six required fields are present, the length check passes
    exactly when every field of the table that has a value is within its
    limit (firstName 50, lastName 50, email 100, phone 20, zipCode 10,
    caseType 50, description 1200, counted in UTF-16 code units, the
    limit itself being allowed); otherwise the answer is a 400. *)
Theorem checkFields_lengths (formData : ContactFormData) :
  Forall (fun name => present (getField name formData)) requiredFields ->
  (Forall (fun limit => forall v, getField limit.1 formData = Some v ->
                                  (length v <= limit.2)%nat) maxLengths
   -> checkFields formData = checkFormats formData)
  /\ (~ Forall (fun limit => forall v, getField limit.1 formData = Some v ->
                                       (length v <= limit.2)%nat) maxLengths
      -> exists field maxLength,
           In (field, maxLength) maxLengths
           /\ checkFields formData
              = Some (errorResponse 400
                        (lit field ++ lit " is too long (max " ++ ofNat maxLength
                         ++ lit " characters)"))).
Proof.
  intros Hpresent. apply checkRequired_None in Hpresent.
  unfold checkFields. rewrite Hpresent. split.
  - intros Hwithin. apply checkLengths_None in Hwithin. now rewrite Hwithin.
  - intros Hlong. rewrite <- checkLengths_None in Hlong.
    destruct (checkLengths maxLengths formData) as [answer |] eqn:Hcheck;
      [| contradiction].
    clear Hlong Hpresent. revert Hcheck.
    generalize maxLengths as limits.
    induction limits as [| [field maxLength] limits IH]; cbn [checkLengths];
      [discriminate |].
    destruct (_ && _).
    + intros [= <-]. exists field, maxLength. split; [now left | reflexivity].
    + intros Hrest. destruct (IH Hrest) as (f & n & Hin & Heq).
      exists f, n. split; [now right | exact Heq].
Qed.

Lemma checkFields_lengths_witness :
  let formData := sampleForm (Some (repeat 97%N 1200)) None None in
  checkFields formData = checkFormats formData.
Proof.
  intros formData.
  apply (proj1 (checkFields_lengths formData
                  ltac:(repeat constructor; eexists; (split; [reflexivity |]);
                        rewrite <- trim_nil; vm_compute; discriminate))).
  unfold maxLengths.
  repeat (apply List.Forall_cons; [simpl; intros v [= <-]; vm_compute; lia |]).
  apply List.Forall_nil.
Defined.

Lemma honeypot_check (formData : ContactFormData) :
  truthy (website formData)
  && negb (strictEq (trim (String_ (website formData))) []) = false
  <-> (forall w, website formData = Some w -> blank w).
Proof.
  split; [| apply honeypot_passes].
  intros Hcheck w Hw. rewrite Hw in Hcheck. cbn [String_] in Hcheck.
  destruct w as [| c w]; [constructor |].
  cbn [truthy andb] in Hcheck. apply negb_false_iff, strictEq_true in Hcheck.
  now apply trim_nil.
Qed.

Lemma blocklist_check (formData : ContactFormData) :
  truthy (email formData)
  && includes BLOCKED_EMAILS (toLowerCase (String_ (email formData))) = false
  <-> (forall mail, email formData = Some mail ->
       ~ In (toLowerCase mail) BLOCKED_EMAILS).
Proof.
  split; [| apply blocklist_passes].
  intros Hcheck mail Hmail. rewrite Hmail in Hcheck. cbn [String_] in Hcheck.
  destruct mail as [| c mail]; [simpl; intuition discriminate |].
  cbn [truthy andb] in Hcheck. now apply includes_false.
Qed.

Lemma reachesRateLimiter_validate (formData : ContactFormData) (clientIp : jstring)
    (now : Z) (store : gmap (list N) RateLimitRecord) :
  reachesRateLimiter formData ->
  validateSubmission formData clientIp now store
  = (if (checkRateLimit clientIp 3 60000 now store).1
     then checkFields formData else Some tooManyRequests,
     (checkRateLimit clientIp 3 60000 now store).2).
Proof.
  intros [Hhoneypot Hblock]. unfold validateSubmission.
  rewrite (honeypot_passes _ Hhoneypot), (blocklist_passes _ Hblock).
  now destruct (checkRateLimit clientIp 3 60000 now store) as [[|] store'].
Qed.

(** X10.  An email on the blocklist is refused whatever its capitals and
    small letters: when the honeypot is empty and the lower-cased email is a
    blocklist entry, the answer is 400 "Email not allowed", whatever the
    other fields are; the rate limiter is not consulted (the store is left
    as it was, so the refusal does not count against the client) and no
    outbound call is made. *)
Theorem blocked_email_refused (penv : ProcessEnv) (env : Environment)
    (request : HttpRequest) (store : gmap (list N) RateLimitRecord)
    (formData : ContactFormData) (mail : jstring) :
  method request = lit "POST" ->
  body request = BodyObject formData ->
  (forall w, website formData = Some w -> blank w) ->
  email formData = Some mail ->
  In (toLowerCase mail) BLOCKED_EMAILS ->
  contactForm penv env request store
  = {| response := emailNotAllowed; storeAfter := store; calls := [] |}.
Proof.
  intros Hmethod Hbody Hhoneypot Hmail Hblocked.
  rewrite (contactForm_post _ _ _ _ _ Hmethod Hbody).
  unfold validateSubmission. rewrite (honeypot_passes _ Hhoneypot).
  destruct (truthy (email formData)
            && includes BLOCKED_EMAILS (toLowerCase (String_ (email formData))))
    eqn:Hcheck; [reflexivity |].
  exfalso. exact (proj1 (blocklist_check formData) Hcheck mail Hmail Hblocked).
Qed.

Lemma blocked_email_refused_witness :
  let formData :=
    {| firstName := None; lastName := None;
       email := Some (lit "JacobVisser45@GMail.COM");
       phone := None; zipCode := None; caseType := None; description := None;
       recaptchaToken := None; website := Some (lit "  ") |} in
  contactForm sampleProcessEnv (sampleEnvironment (9 # 10) (SendDone []))
    (sampleRequest formData) ∅
  = {| response := emailNotAllowed; storeAfter := ∅; calls := [] |}.
Proof.
  intros formData.
  apply (blocked_email_refused _ _ _ _ formData (lit "JacobVisser45@GMail.COM")).
  - reflexivity.
  - reflexivity.
  - intros w [= <-]. repeat constructor.
  - reflexivity.
  - right. left. reflexivity.
Defined.

Lemma verifyCaptcha_answer (penv : ProcessEnv) (env : Environment)
    (formData : ContactFormData) (answer : HttpResponseInit) (sent : list call) :
  verifyCaptcha penv env formData = (Some answer, sent) ->
  (answer = recaptchaNotConfigured \/ answer = recaptchaFailed)
  /\ Forall (fun c => forall message, c <> BeginSend message) sent.
Proof.
  unfold verifyCaptcha, validateRecaptcha.
  destruct (truthy (recaptchaToken formData)); [| discriminate].
  destruct (negb (truthy (RECAPTCHA_SECRET_KEY penv)));
    [intros [= <- <-]; split; [now left | constructor] |].
  destruct (siteverify env _) as [| success score].
  - cbn. intros [= <- <-]. split; [now right | repeat constructor; discriminate].
  - destruct (_ || _); [| discriminate].
    intros [= <- <-]. split; [now right | repeat constructor; discriminate].
Qed.

(** X11.  Every submission that gets past the honeypot and the blocklist
    is counted by the rate limiter, whatever becomes of it afterwards: the
    store the handler leaves is the one [checkRateLimit] leaves for the
    client identifier with a limit of 3 per 60000 ms, also when the
    submission is then rejected for its fields, its captcha or a failed
    dispatch.  When the rate limiter denies, the answer is 429 and no
    outbound call is made, however valid the submission is; when it allows,
    the answer is never the 429. *)
Theorem submission_counts_against_limit (penv : ProcessEnv) (env : Environment)
    (request : HttpRequest) (store : gmap (list N) RateLimitRecord)
    (formData : ContactFormData) :
  method request = lit "POST" ->
  body request = BodyObject formData ->
  reachesRateLimiter formData ->
  let limiter := checkRateLimit (getClientIp request) 3 60000 (Date_now env) store in
  let out := contactForm penv env request store in
  storeAfter out = limiter.2
  /\ (limiter.1 = false -> response out = tooManyRequests /\ calls out = [])
  /\ (limiter.1 = true -> status (response out) <> 429).
Proof.
  intros Hmethod Hbody Hreaches limiter out. subst limiter out.
  rewrite (contactForm_post _ _ _ _ _ Hmethod Hbody).
  rewrite (reachesRateLimiter_validate _ _ _ _ Hreaches).
  destruct (checkRateLimit (getClientIp request) 3 60000 (Date_now env) store)
    as [allowed store'].
  cbn [fst snd].
  destruct allowed.
  - pose proof (sendEmail_status penv env formData (getClientIp request)) as Hsend.
    split; [| split; [discriminate |]]; intros; cycle 1.
    + destruct (checkFields formData) as [rejected |] eqn:Hfields.
      * apply checkFields_status in Hfields. cbn [response]. lia.
      * destruct (verifyCaptcha penv env formData) as [[rejected |] sent] eqn:Hverify.
        -- apply verifyCaptcha_answer in Hverify as [[-> | ->] _]; discriminate.
        -- destruct (sendEmail penv env formData (getClientIp request))
             as [answer sent'].
           cbn [fst] in Hsend. cbn [response]. lia.
    + destruct (checkFields formData) as [rejected |]; [reflexivity |].
      destruct (verifyCaptcha penv env formData) as [[rejected |] sent];
        [reflexivity |].
      now destruct (sendEmail penv env formData (getClientIp request)).
  - split; [reflexivity | split; [now intros _ | discriminate]].
Qed.

Lemma submission_counts_against_limit_witness :
  let formData :=
    {| firstName := None; lastName := None; email := None; phone := None;
       zipCode := None; caseType := None; description := None;
       recaptchaToken := None; website := None |} in
  let env := sampleEnvironment (9 # 10) (SendDone []) in
  let full : gmap (list N) RateLimitRecord :=
    {[ lit "203.0.113.7" := {| count := 3; resetTime := 5000 |} ]} in
  storeAfter (contactForm sampleProcessEnv env (sampleRequest formData) ∅)
  = {[ lit "203.0.113.7" := {| count := 1; resetTime := 61000 |} ]}
  /\ response (contactForm sampleProcessEnv env
                 (sampleRequest (sampleForm sampleStory None None)) full)
     = tooManyRequests.
Proof.
  intros formData env full. split.
  - destruct (submission_counts_against_limit sampleProcessEnv env
                (sampleRequest formData) ∅ formData) as (Hstore & _).
    + reflexivity.
    + reflexivity.
    + split; [intros w [=] | intros mail [=]].
    + rewrite Hstore. reflexivity.
  - destruct (submission_counts_against_limit sampleProcessEnv env
                (sampleRequest (sampleForm sampleStory None None)) full
                (sampleForm sampleStory None None)) as (_ & Hdenied & _).
    + reflexivity.
    + reflexivity.
    + split; [intros w [=] | intros mail [= <-]; apply includes_false; reflexivity].
    + now apply Hdenied.
Defined.

Lemma serve_limiter (penv : ProcessEnv) (clientIp : list N)
    (arrivals : list (Environment * HttpRequest)) :
  forall store : gmap (list N) RateLimitRecord,
    Forall (countedArrival clientIp) arrivals ->
    let limiter :=
      checkRateLimitAll 3
        (callsOf clientIp (List.map (fun arrival => (60000, Date_now arrival.1)) arrivals))
        store in
    List.map refused (serve penv arrivals store).1 = List.map negb limiter.1
    /\ (serve penv arrivals store).2 = limiter.2.
Proof.
  induction arrivals as [| [env request] arrivals IH]; intros store Hall.
  - split; reflexivity.
  - inversion Hall as [| ? ? Hhead Hrest]; subst.
    destruct Hhead as (Hmethod & Hip & formData & Hbody & Hreaches).
    simpl in Hmethod, Hip, Hbody.
    destruct (submission_counts_against_limit penv env request store formData
                Hmethod Hbody Hreaches) as (Hstore & Hdenied & Hallowed).
    rewrite Hip in Hstore, Hdenied, Hallowed.
    cbn [serve List.map callsOf checkRateLimitAll fst snd]. cbn [fst snd] in *.
    fold (callsOf clientIp
            (List.map (fun arrival : Environment * HttpRequest =>
                         (60000, Date_now arrival.1)) arrivals)).
    destruct (checkRateLimit clientIp 3 60000 (Date_now env) store)
      as [allowed store1].
    cbn [fst snd] in *. rewrite Hstore.
    specialize (IH store1 Hrest). cbv zeta in IH. destruct IH as [IHout IHstore].
    destruct (serve penv arrivals store1) as [outs store2].
    destruct (checkRateLimitAll 3 _ store1) as [rest store3].
    cbn [fst snd List.map] in *. split; [| exact IHstore].
    f_equal; [| exact IHout].
    unfold refused. destruct allowed.
    + cbn [negb]. apply Z.eqb_neq. now apply Hallowed.
    + cbn [negb]. destruct (Hdenied eq_refl) as [-> _]. reflexivity.
Qed.

(** X12.  Three submissions per client and minute, valid or not: when the
    invocations of one process are all POSTs of one client identifier that
    get past the honeypot and the blocklist, the first opens a window and
    the others are made before it expires, then the first three are not
    answered 429, whatever else becomes of them, and every later one is
    answered 429. *)
Theorem client_budget_is_three (penv : ProcessEnv) (clientIp : list N)
    (first : Environment * HttpRequest) (later : list (Environment * HttpRequest))
    (store : gmap (list N) RateLimitRecord) :
  Forall (countedArrival clientIp) (first :: later) ->
  (store !! clientIp = None
   \/ exists record, store !! clientIp = Some record
                     /\ resetTime record < Date_now first.1) ->
  Forall (fun arrival => Date_now arrival.1 <= Date_now first.1 + 60000) later ->
  List.map refused (serve penv (first :: later) store).1
  = false :: repeat false (Nat.min (length later) 2)
      ++ repeat true (length later - 2).
Proof.
  intros Hall Hopen Hwithin.
  destruct (serve_limiter penv clientIp (first :: later) store Hall) as [Hout _].
  rewrite Hout. cbn [List.map callsOf fst snd].
  fold (callsOf clientIp
          (List.map (fun arrival : Environment * HttpRequest =>
                       (60000, Date_now arrival.1)) later)).
  rewrite (checkRateLimit_window_budget clientIp 3 60000 (Date_now first.1) _ store Hopen).
  - rewrite List.length_map. cbn [List.map negb]. f_equal.
    unfold answersWithin. change (Z.to_nat (3 - 1)) with 2%nat.
    rewrite List.map_app, !List.map_repeat. reflexivity.
  - apply List.Forall_map. exact Hwithin.
Qed.

Lemma client_budget_is_three_witness :
  let empty :=
    {| firstName := None; lastName := None; email := None; phone := None;
       zipCode := None; caseType := None; description := None;
       recaptchaToken := None; website := None |} in
  let at_ (t : Z) : Environment :=
    {| Date_now := t; siteverify := fun _ => SiteVerifyThrows;
       newEmailClient := fun _ => true; beginSend := fun _ => SendDone [];
       submittedAt := [] |} in
  List.map refused
    (serve sampleProcessEnv
       [(at_ 1000, sampleRequest empty);
        (at_ 2000, sampleRequest (sampleForm sampleStory None None));
        (at_ 3000, sampleRequest empty);
        (at_ 61000, sampleRequest (sampleForm sampleStory None None));
        (at_ 61000, sampleRequest empty)] ∅).1
  = [false; false; false; true; true].
Proof.
  intros empty at_.
  apply (client_budget_is_three sampleProcessEnv (lit "203.0.113.7")
           (at_ 1000, sampleRequest empty)
           [(at_ 2000, sampleRequest (sampleForm sampleStory None None));
            (at_ 3000, sampleRequest empty);
            (at_ 61000, sampleRequest (sampleForm sampleStory None None));
            (at_ 61000, sampleRequest empty)] ∅).
  - repeat constructor; simpl; eexists; (split; [reflexivity |]);
      (split; [intros w [=] |]);
      intros mail Hmail; simpl in Hmail; try discriminate;
      injection Hmail as <-; apply includes_false; reflexivity.
  - left. reflexivity.
  - repeat constructor; simpl; lia.
Defined.

Lemma validateSubmission_store (formData : ContactFormData) (clientIp : jstring)
    (now : Z) (store : gmap (list N) RateLimitRecord) :
  (validateSubmission formData clientIp now store).2 = store
  \/ (validateSubmission formData clientIp now store).2
     = (checkRateLimit clientIp 3 60000 now store).2.
Proof.
  unfold validateSubmission.
  destruct (_ && _); [now left |].
  destruct (_ && _); [now left |].
  destruct (checkRateLimit clientIp 3 60000 now store) as [[|] store']; now right.
Qed.

Lemma contactForm_store (penv : ProcessEnv) (env : Environment)
    (request : HttpRequest) (store : gmap (list N) RateLimitRecord) :
  storeAfter (contactForm penv env request store) = store
  \/ storeAfter (contactForm penv env request store)
     = (checkRateLimit (getClientIp request) 3 60000 (Date_now env) store).2.
Proof.
  unfold contactForm.
  destruct (strictEq (method request) (lit "OPTIONS")); [now left |].
  destruct (negb (strictEq (method request) (lit "POST"))); [now left |].
  destruct (body request) as [| | formData]; [now left | now left |].
  pose proof (validateSubmission_store formData (getClientIp request)
                (Date_now env) store) as Hstore.
  destruct (validateSubmission formData (getClientIp request) (Date_now env) store)
    as [[rejected |] store']; [exact Hstore |].
  destruct (verifyCaptcha penv env formData) as [[rejected |] sent]; [exact Hstore |].
  destruct (sendEmail penv env formData (getClientIp request)). exact Hstore.
Qed.

(** X13.  An invocation touches the rate-limit record of its own client
    identifier only: the record of every other identifier is the same
    before and after, whatever the request and its outcome. *)
Theorem contactForm_other_clients (penv : ProcessEnv) (env : Environment)
    (request : HttpRequest) (store : gmap (list N) RateLimitRecord)
    (other : list N) :
  other <> getClientIp request ->
  storeAfter (contactForm penv env request store) !! other = store !! other.
Proof.
  intros Hother.
  destruct (contactForm_store penv env request store) as [-> | ->];
    [reflexivity | now apply checkRateLimit_lookup_other].
Qed.

Lemma contactForm_other_clients_witness :
  let store : gmap (list N) RateLimitRecord :=
    {[ lit "unknown" := {| count := 3; resetTime := 5000 |} ]} in
  storeAfter (contactForm sampleProcessEnv (sampleEnvironment (9 # 10) (SendDone []))
                (sampleRequest (sampleForm sampleStory None None)) store)
    !! lit "unknown"
  = Some {| count := 3; resetTime := 5000 |}.
Proof.
  intros store.
  rewrite (contactForm_other_clients _ _ _ store (lit "unknown")).
  - apply lookup_singleton_eq.
  - discriminate.
Defined.

(** X14.  Whatever requests a process serves, starting from a store whose
    counts are between 1 and 3 (the empty store of a fresh process is one),
    every record of its store keeps a count between 1 and 3, and no record
    is ever removed: the store keeps a record for every client identifier
    it ever held. *)
Theorem serve_store_invariant (penv : ProcessEnv)
    (arrivals : list (Environment * HttpRequest))
    (store : gmap (list N) RateLimitRecord) :
  map_Forall (countInRange 3) store ->
  map_Forall (countInRange 3) (serve penv arrivals store).2
  /\ dom store ⊆ dom (serve penv arrivals store).2.
Proof.
  revert store.
  induction arrivals as [| [env request] arrivals IH]; intros store Hinv.
  - split; [exact Hinv | reflexivity].
  - cbn [serve].
    assert (Hstep : map_Forall (countInRange 3)
                      (storeAfter (contactForm penv env request store))
                    /\ dom store ⊆ dom (storeAfter (contactForm penv env request store))).
    { destruct (contactForm_store penv env request store) as [-> | ->].
      - split; [exact Hinv | reflexivity].
      - split.
        + apply checkRateLimit_keeps_range; [lia | exact Hinv].
        + intros key Hkey. apply elem_of_dom. apply checkRateLimit_keeps_keys.
          now apply elem_of_dom. }
    destruct Hstep as [Hinv1 Hdom1].
    specialize (IH _ Hinv1).
    destruct (serve penv arrivals (storeAfter (contactForm penv env request store)))
      as [outs store'].
    cbn [snd] in *. destruct IH as [IHinv IHdom].
    split; [exact IHinv | etransitivity; eassumption].
Qed.

Lemma serve_store_invariant_witness :
  let arrivals :=
    [(sampleEnvironment (9 # 10) (SendDone []),
      sampleRequest (sampleForm sampleStory None None))] in
  map_Forall (countInRange 3) (serve sampleProcessEnv arrivals ∅).2
  /\ dom (∅ : gmap (list N) RateLimitRecord)
     ⊆ dom (serve sampleProcessEnv arrivals ∅).2.
Proof.
  intros arrivals.
  apply (serve_store_invariant sampleProcessEnv arrivals ∅).
  apply map_Forall_empty.
Defined.

Lemma checkFields_error (formData : ContactFormData) (answer : HttpResponseInit) :
  checkFields formData = Some answer ->
  exists message, answer = errorResponse 400 message.
Proof.
  unfold checkFields.
  assert (Hrequired : forall fields r,
             checkRequired fields formData = Some r ->
             exists message, r = errorResponse 400 message).
  { induction fields as [| field fields IH]; cbn [checkRequired]; [discriminate |].
    intros r. destruct (_ || _); [intros [= <-]; eauto | apply IH]. }
  assert (Hlengths : forall limits r,
             checkLengths limits formData = Some r ->
             exists message, r = errorResponse 400 message).
  { induction limits as [| [field n] limits IH]; cbn [checkLengths]; [discriminate |].
    intros r. destruct (_ && _); [intros [= <-]; eauto | apply IH]. }
  destruct (checkRequired requiredFields formData) as [r |] eqn:Hr;
    [intros [= <-]; now apply Hrequired in Hr |].
  destruct (checkLengths maxLengths formData) as [r |] eqn:Hl;
    [intros [= <-]; now apply Hlengths in Hl |].
  apply checkRequired_passed in Hr
    as (first & last & mail & tel & zip & kind & H1 & H2 & H3 & H4 & H5 & _).
  unfold checkFormats. rewrite H1, H2, H3, H4, H5.
  repeat (destruct (negb _); [intros [= <-]; eexists; reflexivity |]).
  destruct (_ || _); [intros [= <-]; eexists; reflexivity |].
  destruct (_ && _); [intros [= <-]; eexists; reflexivity | discriminate].
Qed.

Lemma validateSubmission_answer (formData : ContactFormData) (clientIp : jstring)
    (now : Z) (store store' : gmap (list N) RateLimitRecord)
    (answer : HttpResponseInit) :
  validateSubmission formData clientIp now store = (Some answer, store') ->
  exists code message,
    answer = errorResponse code message /\ (code = 400 \/ code = 429).
Proof.
  unfold validateSubmission.
  destruct (_ && _); [intros [= <- _]; do 2 eexists; split; [reflexivity | now left] |].
  destruct (_ && _); [intros [= <- _]; do 2 eexists; split; [reflexivity | now left] |].
  destruct (checkRateLimit clientIp 3 60000 now store) as [[|] store1]; cbn [negb].
  - intros [= Hfields _]. apply checkFields_error in Hfields as (message & ->).
    do 2 eexists. split; [reflexivity | now left].
  - intros [= <- _]. do 2 eexists. split; [reflexivity | now right].
Qed.

Lemma sendEmail_cases (penv : ProcessEnv) (env : Environment)
    (formData : ContactFormData) (clientIp : jstring) :
  let message := emailMessage penv env formData clientIp in
  let '(answer, sent) := sendEmail penv env formData clientIp in
  headers answer = jsonHeaders /\ responseBody answer <> None
  /\ ((sent = [] /\ status answer = 500)
      \/ (sent = [BeginSend message]
          /\ ((status answer = 200 /\ exists id, beginSend env message = SendDone id)
              \/ status answer = 500))).
Proof.
  unfold sendEmail.
  destruct (negb (truthy (CONNECTION_STRING penv)));
    [split; [reflexivity | split; [discriminate | now left]] |].
  destruct (negb (newEmailClient env _));
    [split; [reflexivity | split; [discriminate | now left]] |].
  destruct (beginSend env _) as [id | errorMessage] eqn:Hsend.
  - split; [reflexivity |]. split; [discriminate |].
    right. split; [reflexivity |]. left. eauto.
  - split; [reflexivity |]. split; [discriminate |].
    right. split; [reflexivity |]. now right.
Qed.

Lemma verifyCaptcha_sent (penv : ProcessEnv) (env : Environment)
    (formData : ContactFormData) :
  (verifyCaptcha penv env formData).2 = []
  \/ exists requestBody,
       (verifyCaptcha penv env formData).2
       = [Fetch (lit "https://www.google.com/recaptcha/api/siteverify") requestBody].
Proof.
  unfold verifyCaptcha, validateRecaptcha.
  destruct (truthy (recaptchaToken formData)); [| now left].
  destruct (negb (truthy (RECAPTCHA_SECRET_KEY penv))); [now left |].
  right. eexists.
  destruct (siteverify env _) as [| success score]; cbn.
  - reflexivity.
  - destruct (_ || _); reflexivity.
Qed.

(** X15.  Every answer of the handler, on any request, has status 200, 400,
    405, 429 or 500 and carries the header
    [Access-Control-Allow-Origin: *]; the answer to an OPTIONS request is
    the preflight answer, and every other answer has a body and the JSON
    content type. *)
Theorem contactForm_envelope (penv : ProcessEnv) (env : Environment)
    (request : HttpRequest) (store : gmap (list N) RateLimitRecord) :
  let answer := response (contactForm penv env request store) in
  In (status answer) [200; 400; 405; 429; 500]
  /\ allowsAnyOrigin answer
  /\ (method request = lit "OPTIONS" /\ answer = preflightResponse
      \/ method request <> lit "OPTIONS"
         /\ headers answer = jsonHeaders /\ responseBody answer <> None).
Proof.
  cbv zeta. unfold contactForm, allowsAnyOrigin.
  destruct (strictEq (method request) (lit "OPTIONS")) eqn:Hoptions.
  { apply strictEq_true in Hoptions.
    split; [simpl; auto | split; [simpl; auto | now left]]. }
  apply strictEq_false in Hoptions.
  assert (Hjson : forall answer : HttpResponseInit,
             In (status answer) [200; 400; 405; 429; 500] ->
             headers answer = jsonHeaders ->
             responseBody answer <> None ->
             In (status answer) [200; 400; 405; 429; 500]
             /\ In ("Access-Control-Allow-Origin", "*")%string (headers answer)
             /\ (method request = lit "OPTIONS" /\ answer = preflightResponse
                 \/ method request <> lit "OPTIONS"
                    /\ headers answer = jsonHeaders /\ responseBody answer <> None)).
  { intros answer Hstatus Hheaders Hbody. rewrite Hheaders.
    split; [exact Hstatus |]. split; [now left |]. right. auto. }
  destruct (negb (strictEq (method request) (lit "POST")));
    [apply Hjson; [simpl; auto 10 | reflexivity | discriminate] |].
  destruct (body request) as [| | formData];
    [apply Hjson; [simpl; auto 10 | reflexivity | discriminate] ..|].
  destruct (validateSubmission formData (getClientIp request) (Date_now env) store)
    as [[rejected |] store'] eqn:Hvalid.
  - apply validateSubmission_answer in Hvalid as (code & message & -> & Hcode).
    apply Hjson; [| reflexivity | discriminate].
    destruct Hcode as [-> | ->]; simpl; auto 10.
  - destruct (verifyCaptcha penv env formData) as [[rejected |] sent] eqn:Hverify.
    + apply verifyCaptcha_answer in Hverify as [[-> | ->] _];
        (apply Hjson; [simpl; auto 10 | reflexivity | discriminate]).
    + pose proof (sendEmail_cases penv env formData (getClientIp request)) as Hsend.
      cbv zeta in Hsend.
      destruct (sendEmail penv env formData (getClientIp request)) as [answer sent'].
      cbn [response].
      destruct Hsend as (Hheaders & Hbody & Hcases).
      apply Hjson; [| exact Hheaders | exact Hbody].
      destruct Hcases as [[_ ->] | [_ [[-> _] | ->]]]; simpl; auto 10.
Qed.

(** X16.  The outbound calls of an invocation are, in this order, at most
    one POST to the reCAPTCHA verification endpoint and at most one dispatch
    of an email message; a dispatched message is always addressed to the
    three configured recipients, never to an address taken from the
    request. *)
Theorem contactForm_calls (penv : ProcessEnv) (env : Environment)
    (request : HttpRequest) (store : gmap (list N) RateLimitRecord) :
  exists asked sent,
    calls (contactForm penv env request store) = asked ++ sent
    /\ (asked = []
        \/ exists requestBody,
             asked = [Fetch (lit "https://www.google.com/recaptcha/api/siteverify")
                        requestBody])
    /\ (sent = []
        \/ exists message,
             sent = [BeginSend message]
             /\ List.map address (recipients_to message)
                = [lit "brad@bullattorneys.com"; lit "sudheer@bullattorneys.com";
                   lit "web@bullattorneys.com"]).
Proof.
  unfold contactForm.
  destruct (strictEq (method request) (lit "OPTIONS")); [exists [], []; auto |].
  destruct (negb (strictEq (method request) (lit "POST"))); [exists [], []; auto |].
  destruct (body request) as [| | formData]; [exists [], []; auto .. |].
  destruct (validateSubmission formData (getClientIp request) (Date_now env) store)
    as [[rejected |] store']; [exists [], []; auto |].
  pose proof (verifyCaptcha_sent penv env formData) as Hasked.
  destruct (verifyCaptcha penv env formData) as [[rejected |] asked]; cbn [snd] in Hasked.
  - exists asked, []. cbn [calls]. rewrite List.app_nil_r. auto.
  - pose proof (sendEmail_cases penv env formData (getClientIp request)) as Hsend.
    cbv zeta in Hsend.
    destruct (sendEmail penv env formData (getClientIp request)) as [answer sent].
    exists asked, sent. cbn [calls]. split; [reflexivity |]. split; [exact Hasked |].
    destruct Hsend as (_ & _ & [[-> _] | [-> _]]); [now left |].
    right. eexists. split; reflexivity.
Qed.

Lemma underRateLimit_iff (store : gmap (list N) RateLimitRecord)
    (identifier : list N) (now : Z) :
  (checkRateLimit identifier 3 60000 now store).1 = true
  <-> underRateLimit store identifier now.
Proof.
  split; [| apply underRateLimit_allowed].
  unfold underRateLimit, checkRateLimit.
  destruct (store !! identifier) as [record |]; [| easy].
  destruct (Z.ltb_spec (resetTime record) now); [now left |].
  destruct (Z.leb_spec 3 (count record)); [discriminate | now right].
Qed.

Lemma filled_iff (value : option jstring) (limit : nat) :
  filled value limit <->
  present value /\ (forall v, value = Some v -> (length v <= limit)%nat).
Proof.
  unfold filled, present. split.
  - intros (v & -> & Hblank & Hlen). split; [eauto |]. now intros ? [= <-].
  - intros [(v & -> & Hblank) Hlen]. eauto.
Qed.

Lemma checkFormats_None (formData : ContactFormData) :
  checkFormats formData = None ->
  (forall mail, email formData = Some mail -> isValidEmail mail = true)
  /\ (forall tel, phone formData = Some tel -> isValidPhone tel = true)
  /\ (forall zip, zipCode formData = Some zip -> isValidZipCode zip = true)
  /\ (forall name, firstName formData = Some name -> isGibberish name = false)
  /\ (forall name, lastName formData = Some name -> isGibberish name = false)
  /\ urlFree formData.
Proof.
  unfold checkFormats, urlFree.
  destruct (firstName formData) as [first |]; [| discriminate].
  destruct (lastName formData) as [last |]; [| discriminate].
  destruct (email formData) as [mail |]; [| discriminate].
  destruct (phone formData) as [tel |]; [| discriminate].
  destruct (zipCode formData) as [zip |]; [| discriminate].
  destruct (isValidEmail mail) eqn:Hmail; [| discriminate].
  destruct (isValidPhone tel) eqn:Htel; [| discriminate].
  destruct (isValidZipCode zip) eqn:Hzip; [| discriminate]. cbn [negb].
  destruct (isGibberish first) eqn:Hfirst; [discriminate |].
  destruct (isGibberish last) eqn:Hlast; [discriminate |]. cbn [orb].
  destruct (description formData) as [d |]; cbn [String_].
  - destruct d as [| c d]; cbn [truthy andb].
    + intros _. repeat split; now intros ? [= <-].
    + destruct (containsUrls (c :: d)) eqn:Hurl; [discriminate |].
      intros _. repeat split; now intros ? [= <-].
  - intros _. repeat split; try (now intros ? [= <-]); discriminate.
Qed.

(** X17.  What it takes to get to the captcha step: a POST whose body
    parses to [formData] is let through by every check from the honeypot to
    the description exactly when the honeypot is empty or blank, the email
    is not blocklisted, the client is under its rate limit, the six
    required fields are present, not blank and within their limits, the
    email, phone and zip formats are valid, neither name is gibberish, and
    the description, if any, is URL-free and of at most 1200 code units;
    the store is then the one the rate limiter leaves. *)
Theorem reachesCaptchaStep_iff (env : Environment) (request : HttpRequest)
    (store store' : gmap (list N) RateLimitRecord) (formData : ContactFormData) :
  reachesCaptchaStep env request store formData store' <->
  PassesChecks env request store formData
  /\ urlFree formData
  /\ withinDescriptionLimit formData
  /\ store' = (checkRateLimit (getClientIp request) 3 60000 (Date_now env) store).2.
Proof.
  split.
  - intros (Hmethod & Hbody & Hvalid).
    unfold validateSubmission in Hvalid.
    destruct (truthy (website formData) && _) eqn:Hhoneypot; [discriminate |].
    destruct (truthy (email formData) && _) eqn:Hblock; [discriminate |].
    pose proof (proj1 (honeypot_check formData) Hhoneypot) as Hblank.
    pose proof (proj1 (blocklist_check formData) Hblock) as Hblocklist.
    pose proof (underRateLimit_iff store (getClientIp request) (Date_now env)) as Hrate.
    destruct (checkRateLimit (getClientIp request) 3 60000 (Date_now env) store)
      as [[|] store1]; [| discriminate].
    cbn [negb fst snd] in *. injection Hvalid as Hfields <-.
    unfold checkFields in Hfields.
    destruct (checkRequired requiredFields formData) eqn:Hrequired; [discriminate |].
    destruct (checkLengths maxLengths formData) eqn:Hlengths; [discriminate |].
    apply checkRequired_None in Hrequired. apply checkLengths_None in Hlengths.
    apply checkFormats_None in Hfields
      as (Hmail & Htel & Hzip & Hfirst & Hlast & Hfree).
    unfold requiredFields in Hrequired. unfold maxLengths in Hlengths.
    repeat match goal with
           | H : Forall _ (_ :: _) |- _ =>
               let Hhead := fresh "Hhead" in
               apply List.Forall_cons_iff in H as [Hhead H]; simpl in Hhead
           end.
    split; [| split; [exact Hfree | split; [| reflexivity]]].
    + constructor; try assumption; try (apply filled_iff; split; assumption).
      now apply Hrate.
    + intros d Hd. auto.
  - intros (Hpasses & Hfree & Hlimit & ->).
    split; [exact (pc_method _ _ _ _ Hpasses) |].
    split; [exact (pc_body _ _ _ _ Hpasses) |].
    rewrite (validateSubmission_passes Hpasses).
    now rewrite (descriptionVerdict_clean _ Hfree Hlimit).
Qed.

Lemma verifyCaptcha_passed (penv : ProcessEnv) (env : Environment)
    (formData : ContactFormData) (asked : list call) :
  verifyCaptcha penv env formData = (None, asked) ->
  truthy (recaptchaToken formData) = false \/ captchaApproved penv env formData.
Proof.
  unfold verifyCaptcha, validateRecaptcha, captchaApproved.
  destruct (truthy (recaptchaToken formData)); [| now left].
  destruct (truthy (RECAPTCHA_SECRET_KEY penv)); [| discriminate]. cbn [negb].
  destruct (siteverify env _) as [| success score] eqn:Hreply;
    [discriminate |].
  cbn [captchaSuccess captchaScore]. unfold default, from_option, id.
  destruct success as [[|] |]; cbn [negb orb]; [| discriminate ..].
  destruct score as [score |]; [| discriminate].
  destruct (Qle_bool (1 # 2) score) eqn:Hscore; cbn [negb]; [| discriminate].
  intros _. right. split; [reflexivity |]. exists score.
  split; [reflexivity | now apply Qle_bool_iff].
Qed.

(** X18.  No dispatch without every check: when an invocation dispatches a
    message, the request was a POST whose submission passed every check
    from the honeypot to the description, the message is the one built
    from that submission, the connection string is configured, and either
    the submission carried no captcha token or the verification endpoint
    answered, for that token and the configured secret, [success: true]
    with a score of at least 0.5 (a failed or unanswered verification never
    lets a message out). *)
Theorem dispatch_only_after_checks (penv : ProcessEnv) (env : Environment)
    (request : HttpRequest) (store : gmap (list N) RateLimitRecord)
    (message : EmailMessage) :
  In (BeginSend message) (calls (contactForm penv env request store)) ->
  exists formData,
    PassesChecks env request store formData
    /\ urlFree formData
    /\ withinDescriptionLimit formData
    /\ message = emailMessage penv env formData (getClientIp request)
    /\ truthy (CONNECTION_STRING penv) = true
    /\ (truthy (recaptchaToken formData) = false
        \/ captchaApproved penv env formData).
Proof.
  unfold contactForm.
  destruct (strictEq (method request) (lit "OPTIONS")); [intros [] |].
  destruct (negb (strictEq (method request) (lit "POST"))) eqn:Hpost; [intros [] |].
  apply negb_false_iff, strictEq_true in Hpost.
  destruct (body request) as [| | formData] eqn:Hbody; [intros [] .. |].
  destruct (validateSubmission formData (getClientIp request) (Date_now env) store)
    as [[rejected |] store'] eqn:Hvalid; [intros [] |].
  assert (Hreaches : reachesCaptchaStep env request store formData store') by easy.
  apply reachesCaptchaStep_iff in Hreaches as (Hpasses & Hfree & Hlimit & _).
  destruct (verifyCaptcha penv env formData) as [[rejected |] asked] eqn:Hverify.
  - cbn [calls]. intros Hin.
    apply verifyCaptcha_answer in Hverify as [_ Hnone].
    rewrite List.Forall_forall in Hnone.
    exfalso. exact (Hnone _ Hin message eq_refl).
  - pose proof (verifyCaptcha_sent penv env formData) as Hasked.
    rewrite Hverify in Hasked. cbn [snd] in Hasked.
    apply verifyCaptcha_passed in Hverify.
    unfold sendEmail.
    destruct (truthy (CONNECTION_STRING penv)) eqn:Hconn; cbn [negb calls].
    + assert (Hsent : In (BeginSend message)
                        (asked ++ [BeginSend (emailMessage penv env formData
                                                (getClientIp request))]) ->
                      message = emailMessage penv env formData (getClientIp request)).
      { intros Hin. apply List.in_app_or in Hin as [Hin | [[= <-] | []]];
          [| reflexivity].
        destruct Hasked as [-> | [requestBody ->]]; [destruct Hin |].
        destruct Hin as [Hin | []]. discriminate. }
      destruct (newEmailClient env _); cbn [negb calls].
      * destruct (beginSend env _); cbn [calls]; intros Hin;
          exists formData;
          (split; [exact Hpasses |]); (split; [exact Hfree |]);
          (split; [exact Hlimit |]); (split; [now apply Hsent |]);
          (split; [reflexivity | exact Hverify]).
      * rewrite List.app_nil_r. intros Hin. exfalso.
        destruct Hasked as [-> | [requestBody ->]]; [destruct Hin |].
        destruct Hin as [Hin | []]. discriminate.
    + rewrite List.app_nil_r. intros Hin. exfalso.
      destruct Hasked as [-> | [requestBody ->]]; [destruct Hin |].
      destruct Hin as [Hin | []]. discriminate.
Qed.

Lemma dispatch_only_after_checks_witness :
  let env := sampleEnvironment (9 # 10) (SendDone (lit "op-1")) in
  let formData := sampleForm sampleStory (Some (lit "tok")) None in
  exists submitted,
    PassesChecks env (sampleRequest formData) ∅ submitted
    /\ urlFree submitted
    /\ withinDescriptionLimit submitted
    /\ emailMessage sampleProcessEnv env formData (lit "203.0.113.7")
       = emailMessage sampleProcessEnv env submitted (lit "203.0.113.7")
    /\ truthy (CONNECTION_STRING sampleProcessEnv) = true
    /\ (truthy (recaptchaToken submitted) = false
        \/ captchaApproved sampleProcessEnv env submitted).
Proof.
  intros env formData.
  apply (dispatch_only_after_checks sampleProcessEnv env (sampleRequest formData) ∅
           (emailMessage sampleProcessEnv env formData (lit "203.0.113.7"))).
  vm_compute. right. left. reflexivity.
Defined.

(** X19.  A 200 to a request that is not an OPTIONS request is the success
    acknowledgment and means that a message was dispatched and that the
    dispatch succeeded: the last outbound call of the invocation is the
    dispatch of the message built from the submission, and the email client
    answered it without an exception. *)
Theorem success_means_dispatched (penv : ProcessEnv) (env : Environment)
    (request : HttpRequest) (store : gmap (list N) RateLimitRecord) :
  status (response (contactForm penv env request store)) = 200 ->
  method request <> lit "OPTIONS" ->
  exists formData asked id,
    body request = BodyObject formData
    /\ response (contactForm penv env request store) = successResponse
    /\ calls (contactForm penv env request store)
       = asked ++ [BeginSend (emailMessage penv env formData (getClientIp request))]
    /\ beginSend env (emailMessage penv env formData (getClientIp request))
       = SendDone id.
Proof.
  unfold contactForm. intros Hstatus Hmethod. revert Hstatus.
  destruct (strictEq (method request) (lit "OPTIONS")) eqn:Hoptions;
    [now apply strictEq_true in Hoptions |].
  destruct (negb (strictEq (method request) (lit "POST"))); [discriminate |].
  destruct (body request) as [| | formData]; [discriminate .. |].
  destruct (validateSubmission formData (getClientIp request) (Date_now env) store)
    as [[rejected |] store'] eqn:Hvalid.
  - apply validateSubmission_answer in Hvalid as (code & message & -> & [-> | ->]);
      discriminate.
  - destruct (verifyCaptcha penv env formData) as [[rejected |] asked] eqn:Hverify.
    + apply verifyCaptcha_answer in Hverify as [[-> | ->] _]; discriminate.
    + unfold sendEmail.
      destruct (negb (truthy (CONNECTION_STRING penv))); [discriminate |].
      destruct (negb (newEmailClient env _)); [discriminate |].
      destruct (beginSend env _) as [id | errorMessage] eqn:Hsend; [| discriminate].
      intros _. exists formData, asked, id. auto.
Qed.

Lemma success_means_dispatched_witness :
  let env := sampleEnvironment (9 # 10) (SendDone (lit "op-1")) in
  let request := sampleRequest (sampleForm sampleStory None None) in
  exists formData asked id,
    body request = BodyObject formData
    /\ response (contactForm sampleProcessEnv env request ∅) = successResponse
    /\ calls (contactForm sampleProcessEnv env request ∅)
       = asked ++ [BeginSend (emailMessage sampleProcessEnv env formData
                                (getClientIp request))]
    /\ beginSend env (emailMessage sampleProcessEnv env formData (getClientIp request))
       = SendDone id.
Proof.
  intros env request.
  apply (success_means_dispatched sampleProcessEnv env request ∅).
  - reflexivity.
  - discriminate.
Defined.

(** X20.  Requests the rate limiter never sees: a request whose method is
    not POST, or whose body does not parse as JSON, or parses to [null], is
    answered (200 preflight, 405, 400 "Invalid request format" or 500)
    without touching the store and without any outbound call, so such
    requests are not limited however many a client sends. *)
Theorem uncounted_requests (penv : ProcessEnv) (env : Environment)
    (request : HttpRequest) (store : gmap (list N) RateLimitRecord) :
  method request <> lit "POST"
  \/ body request = BodyInvalid \/ body request = BodyNull ->
  let out := contactForm penv env request store in
  storeAfter out = store
  /\ calls out = []
  /\ In (response out)
       [preflightResponse; methodNotAllowed; invalidRequestFormat; internalServerError].
Proof.
  intros Hcase. cbv zeta. unfold contactForm.
  destruct (strictEq (method request) (lit "OPTIONS"));
    [repeat split; now left |].
  destruct (strictEq (method request) (lit "POST")) eqn:Hpost; cbn [negb];
    [| repeat split; right; now left].
  apply strictEq_true in Hpost.
  destruct Hcase as [Hmethod | [-> | ->]]; [contradiction | |].
  - repeat split. right. right. now left.
  - repeat split. right. right. right. now left.
Qed.

Lemma uncounted_requests_witness :
  let full : gmap (list N) RateLimitRecord :=
    {[ lit "203.0.113.7" := {| count := 1; resetTime := 5000 |} ]} in
  let request :=
    {| method := lit "POST"; x_forwarded_for := Some (lit "203.0.113.7");
       x_real_ip := None; body := BodyInvalid |} in
  let out :=
    contactForm sampleProcessEnv (sampleEnvironment (9 # 10) (SendDone [])) request full in
  storeAfter out = full
  /\ calls out = []
  /\ In (response out)
       [preflightResponse; methodNotAllowed; invalidRequestFormat; internalServerError].
Proof.
  intros full request.
  apply (uncounted_requests sampleProcessEnv
           (sampleEnvironment (9 # 10) (SendDone [])) request full).
  right. left. reflexivity.
Defined.

(* ===================================================================== *)
(** ** Properties of the handler of src/functions/contactForm.ts *)
(* ===================================================================== *)

Lemma plain_contactForm_sends_two_witness :
  let out := Plain.contactForm sampleProcessEnv plainEnvironment
               (Plain.BodyObject plainForm) in
  Plain.status (Plain.response out) = 200
  /\ Plain.sent out
     = [Plain.notificationEmail sampleProcessEnv plainForm;
        Plain.autoReplyEmail sampleProcessEnv plainForm]
  /\ List.map address
       (Plain.recipients_to (Plain.notificationEmail sampleProcessEnv plainForm))
     = Plain.RECIPIENT_ADDRESSES
  /\ List.map address
       (Plain.recipients_to (Plain.autoReplyEmail sampleProcessEnv plainForm))
     = [String_ (Plain.email plainForm)].
Proof.
  apply (plain_contactForm_sends_two sampleProcessEnv plainEnvironment plainForm
           (lit "endpoint=https://mail.example.test/;accesskey=a2V5")
           (lit "op-1") (lit "op-1")); reflexivity.
Defined.

(** X21.  The handler of src/functions/contactForm.ts answers 400 exactly
    when one of the six required fields is missing or empty, and then lists
    the names of all the missing fields, in order, and sends nothing.  A
    value is only tested for being non-empty: a blank value, a malformed
    email or phone number pass this check. *)
Theorem plain_missing_fields (penv : ProcessEnv) (env : Plain.Environment)
    (formData : Plain.ContactFormData) :
  let out := Plain.contactForm penv env (Plain.BodyObject formData) in
  (plainMissing formData <> [] ->
   out = {| Plain.response :=
              {| Plain.status := 400;
                 Plain.jsonBody :=
                   [("error"%string,
                     JString (lit "All required fields must be filled out"));
                    ("missingFields"%string, JStrings (plainMissing formData))] |};
            Plain.sent := [] |})
  /\ (plainMissing formData = [] -> Plain.status (Plain.response out) <> 400).
Proof.
  cbv zeta. unfold Plain.contactForm, plainMissing, Plain.missing.
  cbn [List.filter List.map fst snd].
  destruct (truthy (Plain.firstName formData)),
    (truthy (Plain.lastName formData)), (truthy (Plain.email formData)),
    (truthy (Plain.phone formData)), (truthy (Plain.zipCode formData)),
    (truthy (Plain.caseType formData));
    cbn [negb orb List.filter List.map List.app fst snd];
    try (split; [reflexivity | discriminate]).
  split; [contradiction |]. intros _.
  destruct (CONNECTION_STRING penv); [| discriminate].
  destruct (Plain.newEmailClient env _); [discriminate |].
  destruct (Plain.beginSend env _); [| discriminate].
  destruct (Plain.beginSend env _); discriminate.
Qed.

Lemma plain_missing_fields_witness :
  let formData :=
    {| Plain.firstName := Some (lit "Jane"); Plain.lastName := None;
       Plain.email := Some (lit "not an email"); Plain.phone := Some [];
       Plain.zipCode := Some (lit " "); Plain.caseType := None;
       Plain.description := None |} in
  Plain.contactForm sampleProcessEnv plainEnvironment (Plain.BodyObject formData)
  = {| Plain.response :=
         {| Plain.status := 400;
            Plain.jsonBody :=
              [("error"%string,
                JString (lit "All required fields must be filled out"));
               ("missingFields"%string,
                JStrings [lit "lastName"; lit "phone"; lit "caseType"])] |};
       Plain.sent := [] |}.
Proof.
  intros formData.
  apply (proj1 (plain_missing_fields sampleProcessEnv plainEnvironment formData)).
  discriminate.
Defined.

(** X22.  What the handler of src/functions/contactForm.ts sends, for any
    submission whose body parses: nothing, or the notification alone (its
    dispatch failed: 500), or the notification and then the auto-reply,
    which is attempted only after the notification was dispatched with
    success; the answer is 200 exactly when both dispatches succeeded, so a
    failed auto-reply is answered 500 although the notification went out.
    Every failure of a dispatch is reported as a failure to initialize the
    email client. *)
Theorem plain_dispatch_order (penv : ProcessEnv) (env : Plain.Environment)
    (formData : Plain.ContactFormData) :
  let out := Plain.contactForm penv env (Plain.BodyObject formData) in
  let notification := Plain.notificationEmail penv formData in
  let autoReply := Plain.autoReplyEmail penv formData in
  let wrapped text := lit "Failed to initialize email client: " ++ text in
  (Plain.sent out = []
   /\ In (Plain.status (Plain.response out)) [400; 500])
  \/ (Plain.sent out = [notification]
      /\ exists message,
           Plain.beginSend env notification = SendThrows message
           /\ Plain.response out
              = Plain.serverError
                  (wrapped (lit "Failed to send notification email: " ++ message)))
  \/ (Plain.sent out = [notification; autoReply]
      /\ (exists id, Plain.beginSend env notification = SendDone id)
      /\ ((Plain.status (Plain.response out) = 200
           /\ exists id, Plain.beginSend env autoReply = SendDone id)
          \/ exists message,
               Plain.beginSend env autoReply = SendThrows message
               /\ Plain.response out
                  = Plain.serverError
                      (wrapped (lit "Failed to send auto-reply email: " ++ message)))).
Proof.
  cbv zeta. unfold Plain.contactForm.
  destruct (_ || _); [left; split; [reflexivity | simpl; auto] |].
  destruct (CONNECTION_STRING penv); [| left; split; [reflexivity | simpl; auto]].
  destruct (Plain.newEmailClient env _); [left; split; [reflexivity | simpl; auto] |].
  destruct (Plain.beginSend env (Plain.notificationEmail penv formData))
    as [id | message] eqn:Hfirst.
  - right. right.
    destruct (Plain.beginSend env (Plain.autoReplyEmail penv formData))
      as [id' | message] eqn:Hsecond.
    + split; [reflexivity |]. split; [eauto |]. left. split; [reflexivity | eauto].
    + split; [reflexivity |]. split; [eauto |]. right. eauto.
  - right. left. split; [reflexivity |]. eauto.
Qed.
